(** * shireikan: a command handler for chat messages

    A shallow embedding of [arguments.go] and [handler.go] and the
    properties of the dispatch engine that follow from the code.

    Conventions.
    - A Go [string] is a sequence of bytes: [String.string], whose
      characters are the 8-bit [ascii].
    - A Go [int] is a two's complement integer of 64 bits, as on the
      64-bit targets, kept as a [Z] with the wrap-around of the
      arithmetic written out ([GoInt.wrap]).
    - A Go slice is a header (array, offset, length, capacity) into a
      store of backing arrays; [append] writes in place when the
      capacity allows it, as the Go runtime does.
    - A run-time panic is an outcome of its own ([Panic]); state
      changes made before the panic stay in the state. *)

From Stdlib Require Import ZArith Ascii String List Lia Bool.
From stdpp Require Import gmap strings list.

Local Open Scope string_scope.
Local Open Scope list_scope.
Local Open Scope Z_scope.

(* ================================================================== *)
(** ** Go integers *)

Module GoInt.

Definition intSize : Z := 64.
Definition MaxInt : Z := 2 ^ (intSize - 1) - 1.
Definition MinInt : Z := - 2 ^ (intSize - 1).

Definition in_range (z : Z) : Prop := MinInt <= z <= MaxInt.

(** Two's complement wrap-around of a mathematical result. *)
Definition wrap (z : Z) : Z := (z - MinInt) mod 2 ^ intSize + MinInt.

Definition add (a b : Z) : Z := wrap (a + b).

End GoInt.

(* ================================================================== *)
(** ** Outcomes and the state monad of the embedding *)

Inductive Outcome (A : Type) : Type :=
| Ok (a : A)
| Panic (msg : string).
Arguments Ok {A} a.
Arguments Panic {A} msg.

(** A computation over a state [S] that returns or panics; the state
    reached is kept in both cases. *)
Definition M (S A : Type) : Type := S -> Outcome A * S.

Definition ret {S A : Type} (a : A) : M S A := fun s => (Ok a, s).

Definition bind {S A B : Type} (c : M S A) (k : A -> M S B) : M S B :=
  fun s =>
    match c s with
    | (Ok a, s') => k a s'
    | (Panic msg, s') => (Panic msg, s')
    end.

Definition panic {S A : Type} (msg : string) : M S A := fun s => (Panic msg, s).
Definition get {S : Type} : M S S := fun s => (Ok s, s).
Definition put {S : Type} (s : S) : M S unit := fun _ => (Ok tt, s).
Definition modify {S : Type} (f : S -> S) : M S unit := fun s => (Ok tt, f s).

Notation "'let*' x ':=' c 'in' k" := (bind c (fun x => k))
  (at level 10, x name, c at level 100, k at level 200).

(* ================================================================== *)
(** ** Go strings *)

Module GoString.

Definition len (s : string) : Z := Z.of_nat (String.length s).

(** [strings.HasPrefix(s, prefix)]. *)
Definition HasPrefix (s prefix : string) : bool := String.prefix prefix s.

(** [s[n:]] on a string: a panic when [n] is outside [0..len(s)]. *)
Fixpoint drop (n : nat) (s : string) : string :=
  match n, s with
  | O, _ => s
  | S n', String _ s' => drop n' s'
  | S _, EmptyString => EmptyString
  end.

Definition slice_from (s : string) (n : Z) : Outcome string :=
  if (n <? 0) || (len s <? n)
  then Panic "slice bounds out of range"
  else Ok (drop (Z.to_nat n) s).

(** The double quote, byte 34. *)
Definition dq : ascii := "034"%char.

(** [strings.Contains] with the one-byte substring [dq]. *)
Fixpoint ContainsQuote (k : string) : bool :=
  match k with
  | EmptyString => false
  | String c k' => if Ascii.eqb c dq then true else ContainsQuote k'
  end.

(** [strings.Replace] of [dq] by the empty string with count [-1]:
    every occurrence of the byte is removed. *)
Fixpoint ReplaceQuote (k : string) : string :=
  match k with
  | EmptyString => EmptyString
  | String c k' =>
      if Ascii.eqb c dq then ReplaceQuote k' else String c (ReplaceQuote k')
  end.

End GoString.

(* ================================================================== *)
(** ** strconv: the parsers behind [AsInt] and [AsBool] *)

Module Strconv.














(** *** Decimal integer text, as a specification

    An optional sign and one digit or more; [decimal_text] is its
    value as a mathematical integer. *)




End Strconv.

(* ================================================================== *)
(** ** arguments.go *)

Module Arguments.

(** [type Argument string]. *)
Definition Argument : Type := string.




(* [AsFloat64] parses a floating point number and is left out. *)

(** *** Slices of strings

    The store holds the backing arrays, an array being known by its
    position in the store.  [type ArgumentList []string] is a slice
    header: two headers over one array see each other's writes. *)

Abbreviation Heap := (list (list string)).

Record ArgumentList : Type := mkSlice {
  s_arr : nat;  (* the backing array *)
  s_off : nat;  (* position of element 0 in the array *)
  s_len : nat;
  s_cap : nat
}.

Definition array_of (h : Heap) (al : ArgumentList) : list string :=
  default [] (h !! s_arr al).

(** The tokens a slice holds in a store. *)
Definition contents (h : Heap) (al : ArgumentList) : list string :=
  take (s_len al) (drop (s_off al) (array_of h al)).

(** A header is well formed in a store when its window lies inside
    its array; every slice a Go program holds is. *)
Definition wf (h : Heap) (al : ArgumentList) : Prop :=
  (s_len al <= s_cap al)%nat /\
  (s_off al + s_cap al <= length (array_of h al))%nat.

(** An [ArgumentList{...}] literal: a new array, filled. *)
Definition alloc (l : list string) : M Heap ArgumentList :=
  fun h => (Ok (mkSlice (length h) 0 (length l) (length l)), h ++ [l]).

Definition len (al : ArgumentList) : Z := Z.of_nat (s_len al).
Definition cap (al : ArgumentList) : Z := Z.of_nat (s_cap al).

(** [al[i]]. *)
Definition index (al : ArgumentList) (i : Z) : M Heap string :=
  if (i <? 0) || (i >=? len al) then panic "index out of range"
  else
    let* h := get in
    match array_of h al !! (s_off al + Z.to_nat i)%nat with
    | Some s => ret s
    | None => panic "invalid memory address"
    end.

(** [al[:i]]: the upper bound of a slice expression goes up to the
    capacity. *)
Definition slice_to (al : ArgumentList) (i : Z) : M Heap ArgumentList :=
  if (i <? 0) || (i >? cap al) then panic "slice bounds out of range"
  else ret (mkSlice (s_arr al) (s_off al) (Z.to_nat i) (s_cap al)).

(** [al[j:]]. *)
Definition slice_from (al : ArgumentList) (j : Z) : M Heap ArgumentList :=
  if (j <? 0) || (j >? len al) then panic "slice bounds out of range"
  else ret (mkSlice (s_arr al) (s_off al + Z.to_nat j)
                    (s_len al - Z.to_nat j) (s_cap al - Z.to_nat j)).

(** Writing [src] into an array from position [pos] on. *)
Definition write_at (a : list string) (pos : nat) (src : list string) : list string :=
  take pos a ++ src ++ drop (pos + length src) a.

(** [append(a, b...)].  The elements of [b] are read first (the
    runtime copies with memmove, so overlapping windows are safe).
    When they fit in the capacity of [a] they are written into the
    array of [a], after its last element; otherwise a new array is
    made (its capacity is at least the length needed; the embedding
    takes exactly that). *)
Definition append (a b : ArgumentList) : M Heap ArgumentList :=
  let* h := get in
  let src := contents h b in
  let n := length src in
  if (s_len a + n <=? s_cap a)%nat then
    let* _ := put (<[ s_arr a := write_at (array_of h a) (s_off a + s_len a) src ]> h) in
    ret (mkSlice (s_arr a) (s_off a) (s_len a + n) (s_cap a))
  else
    let l := contents h a ++ src in
    let* _ := put (h ++ [l]) in
    ret (mkSlice (length h) 0 (length l) (length l)).

(** [func (al ArgumentList) Get(i int) Argument]. *)
Definition Get (al : ArgumentList) (i : Z) : M Heap Argument :=
  if (i <? 0) || (i >=? len al) then ret ""
  else index al i.

(** The [range] loop of [IndexOf]; [i] is the index of the head. *)
Fixpoint IndexOf_loop (v : string) (l : list string) (i : Z) : Z :=
  match l with
  | [] => -1
  | s :: l' => if String.eqb v s then i else IndexOf_loop v l' (i + 1)
  end.

Definition IndexOf (arr : ArgumentList) (v : string) : M Heap Z :=
  let* h := get in ret (IndexOf_loop v (contents h arr) 0).

Definition Contains (arr : ArgumentList) (v : string) : M Heap bool :=
  let* n := IndexOf arr v in ret (n >? -1).

(** [func (arr ArgumentList) Splice(i, r int) ArgumentList]. *)
Definition Splice (arr : ArgumentList) (i r : Z) : M Heap ArgumentList :=
  let l := len arr in
  if i >=? l then ret arr
  else if GoInt.add i r >=? l then slice_to arr i
  else
    let* front := slice_to arr i in
    let* back := slice_from arr (GoInt.add i r) in
    append front back.

(** What a caller sees of [Splice] on a list written as a literal:
    the tokens of the result, and the tokens the original variable
    holds after the call. *)
Definition Splice_on (tokens : list string) (i r : Z)
  : Outcome (list string * list string) :=
  match (let* al := alloc tokens in
         let* res := Splice al i r in
         let* h := get in
         ret (contents h res, contents h al)) [] with
  | (o, _) => o
  end.

(** [Splice] as the specification words it, on the tokens alone. *)
Definition Splice_spec (tokens : list string) (start count : Z) : list string :=
  let l := Z.of_nat (length tokens) in
  if start >=? l then tokens
  else if start + count >=? l then take (Z.to_nat start) tokens
  else take (Z.to_nat start) tokens ++ drop (Z.to_nat (start + count)) tokens.

End Arguments.

(* ================================================================== *)
(** ** regexp: the fragment [argsRx] is written in

    Go's [regexp] matches with leftmost-first (Perl) priority: of the
    matches that start at the leftmost possible position it takes the
    one a backtracking search finds first, trying the alternatives of
    [|] from left to right and the greedy repetitions longest first.
    [exec] lists the matches of a pattern at the head of the input in
    exactly that order, each with the input left over.

    The classes of [argsRx] hold ASCII bytes only, and every byte of a
    multi-byte UTF-8 sequence is at least 128, so matching byte by
    byte takes the same decisions as matching rune by rune. *)

Module Regexp.

Inductive class_item : Type :=
| Lit (c : ascii)   (* one byte *)
| Space.            (* \s, which RE2 defines as [\t\n\f\r ] *)

Inductive re : Type :=
| Chr (c : ascii)                 (* a literal byte *)
| NotIn (cls : list class_item)   (* [^...] *)
| Seq (a b : re)                  (* ab *)
| Alt (a b : re)                  (* a|b *)
| Star (a : re)                   (* a*, greedy *)
| Plus (a : re).                  (* a+, greedy *)

Definition is_space (c : ascii) : bool :=
  Ascii.eqb c "009" || Ascii.eqb c "010" || Ascii.eqb c "012"
  || Ascii.eqb c "013" || Ascii.eqb c " ".

Definition item_has (it : class_item) (c : ascii) : bool :=
  match it with
  | Lit x => Ascii.eqb c x
  | Space => is_space c
  end.

Definition in_class (cls : list class_item) (c : ascii) : bool :=
  existsb (fun it => item_has it c) cls.

(** A match: the text matched and the input after it. *)
Definition hit : Type := string * string.

Definition extend (m1 : string) (h : hit) : hit := (m1 +:+ fst h, snd h).

(** [then_ l k]: every way to go on with [k] after a match of [l],
    the choices of [l] ranking before those of [k]. *)
Definition then_ (l : list hit) (k : string -> list hit) : list hit :=
  flat_map (fun h => map (extend (fst h)) (k (snd h))) l.

(** Greedy iteration of [step]: one more round first, stopping
    last.  A round that takes no input is not repeated.  [fuel]
    bounds the number of rounds; the length of the input is enough,
    each round taking a byte or more. *)
Fixpoint star (step : string -> list hit) (fuel : nat) (s : string) : list hit :=
  match fuel with
  | O => [("", s)]
  | S n =>
      then_ (List.filter (fun h => (String.length (snd h) <? String.length s)%nat) (step s))
            (star step n)
      ++ [("", s)]
  end.

Fixpoint exec (r : re) (s : string) : list hit :=
  match r with
  | Chr c =>
      match s with
      | String x s' => if Ascii.eqb x c then [(String x "", s')] else []
      | EmptyString => []
      end
  | NotIn cls =>
      match s with
      | String x s' => if in_class cls x then [] else [(String x "", s')]
      | EmptyString => []
      end
  | Seq a b => then_ (exec a s) (exec b)
  | Alt a b => exec a s ++ exec b s
  | Star a => star (exec a) (String.length s) s
  | Plus a => then_ (exec a s) (fun s' => star (exec a) (String.length s') s')
  end.

(** The leftmost-first match at the head of [s], if there is one. *)
Definition match_here (r : re) (s : string) : option hit := head (exec r s).

(** [re.FindAllString(s, -1)] for a pattern that matches no empty
    string: the successive matches, each search starting where the
    match before it ended, a position without a match being passed
    over.  (An empty match, which [argsRx] cannot have, is passed
    over like a position without one.) *)
Fixpoint FindAll_loop (r : re) (fuel : nat) (s : string) : list string :=
  match fuel with
  | O => []
  | S n =>
      match s with
      | EmptyString => []
      | String _ s' =>
          match match_here r s with
          | Some (m, rest) =>
              if (String.length rest <? String.length s)%nat
              then m :: FindAll_loop r n rest
              else FindAll_loop r n s'
          | None => FindAll_loop r n s'
          end
      end
  end.

Definition FindAllString (r : re) (s : string) : list string :=
  FindAll_loop r (String.length s) s.

End Regexp.

(* ================================================================== *)
(** ** handler.go *)

Module Handler.

(** An [error] value, known by its message. *)
Definition error : Type := string.

Inductive ErrorType : Type :=
| ErrTypGuildPrefixGetter
| ErrTypGetChannel
| ErrTypGetGuild
| ErrTypCommandNotFound
| ErrTypNotExecutableInDM
| ErrTypMiddleware
| ErrTypCommandExec
| ErrTypDeleteCommandMessage.

(** [var argsRx]: the pattern (?:[^\sQ]+|Q[^Q]*Q)+, where Q stands
    for the double quote. *)
Definition argsRx : Regexp.re :=
  Regexp.Plus
    (Regexp.Alt
       (Regexp.Plus (Regexp.NotIn [Regexp.Space; Regexp.Lit GoString.dq]))
       (Regexp.Seq (Regexp.Chr GoString.dq)
          (Regexp.Seq (Regexp.Star (Regexp.NotIn [Regexp.Lit GoString.dq]))
             (Regexp.Chr GoString.dq)))).

(** *** The discordgo values the handler reads *)

Record User : Type := mkUser { UserID : string; Bot : bool }.

Inductive ChannelType : Type :=
| ChannelTypeGuildText
| ChannelTypeDM
| ChannelTypeGuildVoice
| ChannelTypeGroupDM
| ChannelTypeOther (n : Z).

Record Channel : Type := mkChannel { ChanID : string; Type_ : ChannelType }.
Record Guild : Type := mkGuild { GuildID_ : string }.

Record Message : Type := mkMessage {
  ID : string;
  ChannelID : string;
  GuildID : string;
  Content : string;
  Author : option User;   (* nil when absent *)
  Member : option string
}.

(** The result of a call that returns a value and an [error]. *)
Inductive Fetch (A : Type) : Type :=
| Got (a : A)
| Failed (err : error).
Arguments Got {A} a.
Arguments Failed {A} err.

(** [*discordgo.Session], by the answers it gives to the handler. *)
Record Session : Type := mkSession {
  StateUserID : string;                       (* s.State.User.ID *)
  StateChannel : string -> Fetch Channel;     (* s.State.Channel *)
  SessionChannel : string -> Fetch Channel;   (* s.Channel *)
  StateGuild : string -> Fetch Guild;         (* s.State.Guild *)
  SessionGuild : string -> Fetch Guild;       (* s.Guild *)
  ChannelMessageDelete : string -> string -> option error
}.

(** A value of the per-dispatch object map. *)
Inductive Object : Type :=
| ObjHandler                (* the pointer to the handler *)
| ObjValue (v : string).

(** [context]; the fields the handler has not set yet hold their
    zero value. *)
Record Context : Type := mkContext {
  session : Session;
  message : Message;
  member : option string;
  isEdit : bool;
  channel : option Channel;
  guild : option Guild;
  isDM : bool;
  args : list string;
  objectMap : option (gmap string Object)
}.

Definition set_channel (c : option Channel) (ctx : Context) : Context :=
  mkContext (session ctx) (message ctx) (member ctx) (isEdit ctx)
    c (guild ctx) (isDM ctx) (args ctx) (objectMap ctx).
Definition set_guild (g : option Guild) (ctx : Context) : Context :=
  mkContext (session ctx) (message ctx) (member ctx) (isEdit ctx)
    (channel ctx) g (isDM ctx) (args ctx) (objectMap ctx).
Definition set_isDM (b : bool) (ctx : Context) : Context :=
  mkContext (session ctx) (message ctx) (member ctx) (isEdit ctx)
    (channel ctx) (guild ctx) b (args ctx) (objectMap ctx).
Definition set_args (a : list string) (ctx : Context) : Context :=
  mkContext (session ctx) (message ctx) (member ctx) (isEdit ctx)
    (channel ctx) (guild ctx) (isDM ctx) a (objectMap ctx).
Definition set_objectMap (m : option (gmap string Object)) (ctx : Context) : Context :=
  mkContext (session ctx) (message ctx) (member ctx) (isEdit ctx)
    (channel ctx) (guild ctx) (isDM ctx) (args ctx) m.

(** The [Command] interface, by the methods the handler calls. *)
Record Command : Type := mkCommand {
  GetInvokes : list string;
  IsExecutableInDMChannels : bool;
  Exec : Context -> option error
}.

(** The [Middleware] interface; a [MiddlewareLayer] is an [int]
    used as a bit mask. *)
Record Middleware : Type := mkMiddleware {
  GetLayer : Z;
  Handle : Command -> Context -> Z -> bool * option error
}.

(** What a dispatch does to the world outside the handler, in the
    order it does it: the calls of the two callbacks of [Config], of
    the middlewares, of the command, and the deletion of the
    message. *)
Inductive Event : Type :=
| EvGuildPrefixGetter (guildID : string)
| EvOnError (ctx : Context) (errTyp : ErrorType) (err : error)
| EvHandle (mw : Middleware) (cmd : Command) (ctx : Context) (layer : Z)
| EvExec (cmd : Command) (ctx : Context)
| EvChannelMessageDelete (channelID msgID : string).

Abbreviation Trace := (list Event).

Definition emit (e : Event) : M Trace unit := modify (fun t => t ++ [e]).

(** The guild identifiers the prefix provider was asked about. *)
Definition getter_calls (t : Trace) : list string :=
  flat_map (fun e => match e with EvGuildPrefixGetter g => [g] | _ => [] end) t.

(** The error reports of a trace, and the commands it executed. *)
Definition reports (t : Trace) : list (ErrorType * error) :=
  flat_map (fun e => match e with EvOnError _ typ err => [(typ, err)] | _ => [] end) t.

Definition executions (t : Trace) : list Command :=
  flat_map (fun e => match e with EvExec cmd _ => [cmd] | _ => [] end) t.

(** A computation that only adds events to the trace, none of them
    a call of the prefix provider. *)
Definition quiet {A : Type} (c : M Trace A) : Prop :=
  forall t, exists o ev, c t = (o, t ++ ev) /\ getter_calls ev = [].

(** The middlewares a trace called, in the order of the calls. *)
Definition handled (t : Trace) : list Middleware :=
  flat_map (fun e => match e with EvHandle mw _ _ _ => [mw] | _ => [] end) t.

(** Events with at most one error report, which is then the last of
    them. *)
Definition tidy (ev : Trace) : Prop :=
  reports ev = [] \/
  exists pre ctx typ err, ev = pre ++ [EvOnError ctx typ err] /\ reports pre = [].

(** The events of a dispatch, or of a part of it, are in order: at
    most one error report, which is then the last event, and at most
    one execution. *)
Definition in_order (ev : Trace) : Prop :=
  tidy ev /\ (length (executions ev) <= 1)%nat.

(** A computation that only adds events to the trace, each of them
    with the property [P]. *)
Definition emits {A : Type} (P : Event -> Prop) (c : M Trace A) : Prop :=
  forall t, exists o ev, c t = (o, t ++ ev) /\ Forall P ev.

(** An event that is a call of a middleware or of a command has the
    property [P] of the command and of the context of the call. *)
Definition called_with (P : Command -> Context -> Prop) (e : Event) : Prop :=
  match e with
  | EvHandle _ cmd ctx _ => P cmd ctx
  | EvExec cmd ctx => P cmd ctx
  | _ => True
  end.


(** A middleware is subscribed to a layer when it shares a bit with it. *)
Definition subscribed (layer : Z) (mw : Middleware) : bool :=
  negb (Z.land (GetLayer mw) layer =? 0).

(** The calls of [Handle] a layer run makes on the middlewares [mws]
    when none of them stops it: the subscribed ones, in their order. *)
Definition visits (cmd : Command) (ctx : Context) (layer : Z) (mws : list Middleware)
  : Trace :=
  map (fun mw => EvHandle mw cmd ctx layer) (filter (fun mw => subscribed layer mw = true) mws).

(** A middleware lets a layer run go on: subscribed to the layer, it
    returns [(true, nil)]. *)
Definition continues (cmd : Command) (ctx : Context) (layer : Z) (mw : Middleware) : Prop :=
  subscribed layer mw = true -> Handle mw cmd ctx layer = (true, None).

Record Config : Type := mkConfig {
  GeneralPrefix : string;
  SpaceAfterPrefix : bool;
  InvokeToLower : bool;
  AllowDM : bool;
  AllowBots : bool;
  ExecuteOnEdit : bool;
  UseDefaultHelpCommand : bool;
  DeleteMessageAfter : bool;
  (* [OnError] is a call recorded as [EvOnError] *)
  GuildPrefixGetter : string -> string * option error
}.

Record handler : Type := mkHandler {
  config : Config;
  cmdMap : gmap string Command;
  cmdInstances : list Command;
  middlewares : list Middleware;
  handlerObjects : gmap string Object   (* objectMap *)
}.

Definition set_cmdMap (m : gmap string Command) (h : handler) : handler :=
  mkHandler (config h) m (cmdInstances h) (middlewares h) (handlerObjects h).
Definition set_cmdInstances (l : list Command) (h : handler) : handler :=
  mkHandler (config h) (cmdMap h) l (middlewares h) (handlerObjects h).
Definition set_middlewares (l : list Middleware) (h : handler) : handler :=
  mkHandler (config h) (cmdMap h) (cmdInstances h) l (handlerObjects h).
Definition set_handlerObjects (m : gmap string Object) (h : handler) : handler :=
  mkHandler (config h) (cmdMap h) (cmdInstances h) (middlewares h) m.

(** *** Slices of tokens inside [messageHandler]

    [args] is the only header of the array [FindAllString] returns,
    so the list of its tokens stands for it. *)

(** [args[n:]]. *)
Definition slice_from (l : list string) (n : Z) : Outcome (list string) :=
  if (n <? 0) || (Z.of_nat (length l) <? n)
  then Panic "slice bounds out of range"
  else Ok (drop (Z.to_nat n) l).

(** [args[n]]. *)
Definition index (l : list string) (n : Z) : Outcome string :=
  if n <? 0 then Panic "index out of range"
  else match l !! Z.to_nat n with
       | Some x => Ok x
       | None => Panic "index out of range"
       end.

(** Lines 268-273: the tokens of a message text. *)
Definition tokenize (content : string) : list string :=
  map (fun k => if GoString.ContainsQuote k then GoString.ReplaceQuote k else k)
      (Regexp.FindAllString argsRx content).

(** *** The grammar of the tokens, as a specification

    A plain byte is neither white space nor the double quote.  A piece
    is a longest run of plain bytes, or a quoted text: a double quote,
    the bytes up to the next double quote, and that double quote.  A
    token is a longest run of pieces that follow one another without a
    gap, all its double quotes removed.  A byte that starts no piece
    (white space, a double quote that is not closed) is between two
    tokens. *)

Definition plain (c : ascii) : bool :=
  negb (Regexp.is_space c) && negb (Ascii.eqb c GoString.dq).

Fixpoint all_plain (s : string) : bool :=
  match s with
  | EmptyString => true
  | String c s' => plain c && all_plain s'
  end.

(** The longest run of plain bytes at the head of [s], and the rest. *)
Fixpoint span_plain (s : string) : string * string :=
  match s with
  | EmptyString => (EmptyString, EmptyString)
  | String c s' =>
      if plain c
      then let (m, r) := span_plain s' in (String c m, r)
      else (EmptyString, s)
  end.

(** The bytes before the first double quote of [s] and the bytes
    after it; nothing when [s] has no double quote. *)
Fixpoint upto_quote (s : string) : option (string * string) :=
  match s with
  | EmptyString => None
  | String c s' =>
      if Ascii.eqb c GoString.dq then Some (EmptyString, s')
      else match upto_quote s' with
           | Some (m, r) => Some (String c m, r)
           | None => None
           end
  end.

(** The piece at the head of [s], quotes included, and the rest. *)
Definition piece (s : string) : option (string * string) :=
  match s with
  | EmptyString => None
  | String c s' =>
      if plain c then Some (span_plain s)
      else if Ascii.eqb c GoString.dq then
        match upto_quote s' with
        | Some (m, r) => Some (String c (m +:+ String GoString.dq ""), r)
        | None => None
        end
      else None
  end.

(** The longest run of pieces at the head of [s]; a piece takes a
    byte or more, so the length of [s] is fuel enough. *)
Fixpoint pieces (fuel : nat) (s : string) : string * string :=
  match fuel with
  | O => (EmptyString, s)
  | S n =>
      match piece s with
      | Some (m, r) => let (m', r') := pieces n r in (m +:+ m', r')
      | None => (EmptyString, s)
      end
  end.

Fixpoint scan (fuel : nat) (s : string) : list string :=
  match fuel with
  | O => []
  | S n =>
      match s with
      | EmptyString => []
      | String _ s' =>
          match piece s with
          | Some _ =>
              let (m, r) := pieces (String.length s) s in
              GoString.ReplaceQuote m :: scan n r
          | None => scan n s'
          end
      end
  end.

Definition tokens (s : string) : list string := scan (String.length s) s.

(** A text that is over, or goes on with a space: no piece starts
    there. *)
Definition ended (rest : string) : Prop :=
  rest = "" \/ exists r, rest = String " " r.

(** The texts [l] with one space between two of them. *)
Fixpoint unwords (l : list string) : string :=
  match l with
  | [] => ""
  | w :: rest =>
      match rest with
      | [] => w
      | _ => w +:+ String " " (unwords rest)
      end
  end.

(** [r] is a way to write the argument [w] in a message: as it is
    when it is a non-empty run of plain bytes, or between two double
    quotes when it holds no double quote. *)
Definition writes (w r : string) : Prop :=
  (all_plain w = true /\ w <> "" /\ r = w) \/
  (GoString.ContainsQuote w = false /\
   r = String GoString.dq (w +:+ String GoString.dq "")).

(** The grammar as the specification words it: a token is one piece,
    a run of plain bytes or one quoted text. *)
Definition pieceRx : Regexp.re :=
  Regexp.Alt
    (Regexp.Plus (Regexp.NotIn [Regexp.Space; Regexp.Lit GoString.dq]))
    (Regexp.Seq (Regexp.Chr GoString.dq)
       (Regexp.Seq (Regexp.Star (Regexp.NotIn [Regexp.Lit GoString.dq]))
          (Regexp.Chr GoString.dq))).

Definition tokens_as_stated (s : string) : list string :=
  map GoString.ReplaceQuote (Regexp.FindAllString pieceRx s).

Definition lift {S A : Type} (o : Outcome A) : M S A := fun s => (o, s).

(** Lines 275-287: the invocation name and the arguments. *)
Definition extractInvoke (cfg : Config) (usedPrefix : string) (args : list string)
  : Outcome (string * list string) :=
  if SpaceAfterPrefix cfg then
    if 1 <? Z.of_nat (length args) then
      match index args 1 with
      | Ok invoke =>
          match slice_from args 2 with
          | Ok rest => Ok (invoke, rest)
          | Panic msg => Panic msg
          end
      | Panic msg => Panic msg
      end
    else
      match slice_from args 1 with
      | Ok rest => Ok ("", rest)
      | Panic msg => Panic msg
      end
  else
    match index args 0 with
    | Ok first =>
        match GoString.slice_from first (GoString.len usedPrefix) with
        | Ok invoke =>
            match slice_from args 1 with
            | Ok rest => Ok (invoke, rest)
            | Panic msg => Panic msg
            end
        | Panic msg => Panic msg
        end
    | Panic msg => Panic msg
    end.

(** What a middleware or a command can rely on in the context it is
    called with, in the dispatch of the message [msg] by the handler
    [h]: the session, the message and the edit flag of the dispatch;
    a channel; a guild outside direct messages; a per-dispatch object
    map; and, in a direct message, a handler that allows them and a
    command that can run there. *)
Definition ready (h : handler) (s : Session) (msg : Message) (edit : bool)
    (cmd : Command) (ctx : Context) : Prop :=
  session ctx = s /\ message ctx = msg /\ isEdit ctx = edit /\
  channel ctx <> None /\
  (isDM ctx = false -> guild ctx <> None) /\
  (isDM ctx = true ->
     AllowDM (config h) = true /\ IsExecutableInDMChannels cmd = true) /\
  objectMap ctx <> None.

(** The registry is sound: a command a key maps to is in the list of
    instances. *)
Definition registry_sound (h : handler) : Prop :=
  forall k c, cmdMap h !! k = Some c -> In c (cmdInstances h).

(** The kinds of events of the session that [RegisterHandlers] adds
    a handler for; the kind is the one of the second parameter of the
    function handed to [AddHandler]. *)
Inductive EventKind : Type := MessageCreate | MessageUpdate.

(** A message gets past the three filters at the head of
    [messageHandler]: it has an author, who is not the session's own
    user, its text has two bytes or more, and the author is no bot
    unless bots are allowed. *)
Definition admitted (h : handler) (s : Session) (msg : Message) : Prop :=
  exists author,
    Author msg = Some author /\
    UserID author <> StateUserID s /\
    2 <= GoString.len (Content msg) /\
    (AllowBots (config h) = true \/ Bot author = false).

Section WithEnvironment.

(** Parts of the package and of its libraries the two files use
    but do not define. *)
Variable ToLower : string -> string.           (* strings.ToLower *)
Variable defaultHelpCommand : Command.
Variable LayerBeforeCommand LayerAfterCommand : Z.
Variable ErrCommandNotFound ErrCommandNotExecutableInDMs : error.
Variable ObjectMapKeyHandler : string.

(** The loop of [RegisterCommand] over [cmd.GetInvokes()]. *)
Fixpoint register_invokes (cmd : Command) (invokes : list string) : M handler unit :=
  match invokes with
  | [] => ret tt
  | invoke :: rest =>
      let* h := get in
      let invoke := if InvokeToLower (config h) then ToLower invoke else invoke in
      match cmdMap h !! invoke with
      | Some _ =>
          panic ("invoke already '" +:+ invoke +:+ "' already registered")
      | None =>
          let* _ := put (set_cmdMap (<[ invoke := cmd ]> (cmdMap h)) h) in
          register_invokes cmd rest
      end
  end.

Definition RegisterCommand (cmd : Command) : M handler unit :=
  let* _ := modify (fun h => set_cmdInstances (cmdInstances h ++ [cmd]) h) in
  register_invokes cmd (GetInvokes cmd).

(** The key an invocation name has in [cmdMap]: the name, in
    lower case when [InvokeToLower] is set. *)
Definition mapKey (h : handler) (invoke : string) : string :=
  if InvokeToLower (config h) then ToLower invoke else invoke.

Definition RegisterMiddleware (mw : Middleware) : M handler unit :=
  modify (fun h => set_middlewares (middlewares h ++ [mw]) h).

(** [NewHandler]; the two default callbacks are the ones a
    [Config] without them gets. *)
Definition NewHandler (cfg : Config) : Outcome unit * handler :=
  let h := mkHandler cfg ∅ [] [] ∅ in
  if UseDefaultHelpCommand cfg then RegisterCommand defaultHelpCommand h
  else (Ok tt, h).

Definition GetConfig (h : handler) : Config := config h.
Definition GetCommandMap (h : handler) : gmap string Command := cmdMap h.
Definition GetCommandInstances (h : handler) : list Command := cmdInstances h.

Definition GetCommand (h : handler) (invoke : string) : option Command :=
  let invoke := if InvokeToLower (config h) then ToLower invoke else invoke in
  cmdMap h !! invoke.

Definition GetObject (h : handler) (key : string) : option Object :=
  handlerObjects h !! key.

Definition SetObject (key : string) (val : Object) : M handler unit :=
  modify (fun h => set_handlerObjects (<[ key := val ]> (handlerObjects h)) h).

(** The loop of [executeMiddlewares]. *)
Fixpoint executeMiddlewares_loop (mws : list Middleware)
    (cmd : Command) (ctx : Context) (layer : Z) : M Trace bool :=
  match mws with
  | [] => ret true
  | mw :: rest =>
      if Z.land (GetLayer mw) layer =? 0
      then executeMiddlewares_loop rest cmd ctx layer
      else
        let* _ := emit (EvHandle mw cmd ctx layer) in
        match Handle mw cmd ctx layer with
        | (_, Some err) =>
            let* _ := emit (EvOnError ctx ErrTypMiddleware err) in
            ret false
        | (next, None) =>
            if negb next then ret false
            else executeMiddlewares_loop rest cmd ctx layer
        end
  end.

Definition executeMiddlewares (h : handler)
    (cmd : Command) (ctx : Context) (layer : Z) : M Trace bool :=
  executeMiddlewares_loop (middlewares h) cmd ctx layer.

(** Lines 302-323 of [messageHandler]: the run of a command that
    was found and may run in this channel. *)
Definition runCommand (h : handler) (cmd : Command) (ctx : Context) : M Trace unit :=
  let ctx := set_objectMap (Some {[ ObjectMapKeyHandler := ObjHandler ]}) ctx in
  let* ok := executeMiddlewares h cmd ctx LayerBeforeCommand in
  if negb ok then ret tt else
  let* _ := emit (EvExec cmd ctx) in
  match Exec cmd ctx with
  | Some err => emit (EvOnError ctx ErrTypCommandExec err)
  | None =>
      let* ok := executeMiddlewares h cmd ctx LayerAfterCommand in
      if negb ok then ret tt else
      if DeleteMessageAfter (config h) then
        let msg := message ctx in
        let* _ := emit (EvChannelMessageDelete (ChannelID msg) (ID msg)) in
        match ChannelMessageDelete (session ctx) (ChannelID msg) (ID msg) with
        | Some err => emit (EvOnError ctx ErrTypDeleteCommandMessage err)
        | None => ret tt
        end
      else ret tt
  end.

(** Lines 268-300: tokens, invocation, lookup. *)
Definition parseAndRun (h : handler) (ctx : Context) (usedPrefix : string)
  : M Trace unit :=
  let args := tokenize (Content (message ctx)) in
  let* p := lift (extractInvoke (config h) usedPrefix args) in
  let invoke := fst p in
  let ctx := set_args (snd p) ctx in
  match GetCommand h invoke with
  | None => emit (EvOnError ctx ErrTypCommandNotFound ErrCommandNotFound)
  | Some cmd =>
      if isDM ctx && negb (IsExecutableInDMChannels cmd)
      then emit (EvOnError ctx ErrTypNotExecutableInDM ErrCommandNotExecutableInDMs)
      else runCommand h cmd ctx
  end.

(** Lines 247-266: the channel and the guild of the message. *)
Definition resolveAndRun (h : handler) (ctx : Context) (usedPrefix : string)
  : M Trace unit :=
  let s := session ctx in
  let msg := message ctx in
  let found :=
    match StateChannel s (ChannelID msg) with
    | Got c => Got c
    | Failed _ => SessionChannel s (ChannelID msg)
    end in
  match found with
  | Failed err => emit (EvOnError (set_channel None ctx) ErrTypGetChannel err)
  | Got c =>
      let ctx := set_channel (Some c) ctx in
      let dm :=
        match Type_ c with
        | ChannelTypeDM | ChannelTypeGroupDM => true
        | _ => false
        end in
      let ctx := set_isDM dm ctx in
      if negb (AllowDM (config h)) && isDM ctx then ret tt else
      if negb (isDM ctx) then
        let foundG :=
          match StateGuild s (GuildID msg) with
          | Got g => Got g
          | Failed _ => SessionGuild s (GuildID msg)
          end in
        match foundG with
        | Failed err => emit (EvOnError (set_guild None ctx) ErrTypGetGuild err)
        | Got g => parseAndRun h (set_guild (Some g) ctx) usedPrefix
        end
      else parseAndRun h ctx usedPrefix
  end.

(** [messageHandler]: the filters and the prefix (lines 207-245),
    then the rest of the dispatch. *)
Definition messageHandler (h : handler) (s : Session) (msg : Message) (isEdit : bool)
  : M Trace unit :=
  match Author msg with
  | None => ret tt
  | Some author =>
      if String.eqb (UserID author) (StateUserID s) then ret tt else
      if GoString.len (Content msg) <? 2 then ret tt else
      if negb (AllowBots (config h)) && Bot author then ret tt else
      let ctx := mkContext s msg (Member msg) isEdit None None false [] None in
      let continue (usedPrefix : string) : M Trace unit :=
        if String.eqb usedPrefix "" then ret tt
        else resolveAndRun h ctx usedPrefix in
      if GoString.HasPrefix (Content msg) (GeneralPrefix (config h))
      then continue (GeneralPrefix (config h))
      else
        let* _ := emit (EvGuildPrefixGetter (GuildID msg)) in
        match GuildPrefixGetter (config h) (GuildID msg) with
        | (_, Some err) => emit (EvOnError ctx ErrTypGuildPrefixGetter err)
        | (guildPrefix, None) =>
            if negb (String.eqb guildPrefix "")
               && GoString.HasPrefix (Content msg) guildPrefix
            then continue guildPrefix
            else continue ""
        end
  end.

(** [RegisterHandlers]: the calls of [AddHandler], in their order,
    each with the kind of event and the function handed over. *)
Definition RegisterHandlers (h : handler)
  : list (EventKind * (Session -> Message -> M Trace unit)) :=
  (MessageCreate, fun s msg => messageHandler h s msg false) ::
  (if ExecuteOnEdit (config h)
   then [(MessageUpdate, fun s msg => messageHandler h s msg false)]
   else []).


(** A call in the dispatch of [msg] with the used prefix
    [usedPrefix]: the context is ready, its arguments are the ones
    extracted from the tokens of the text, and the command is the one
    the registry holds under the extracted name. *)
Definition dispatched (h : handler) (s : Session) (msg : Message) (edit : bool)
    (usedPrefix : string) (cmd : Command) (ctx : Context) : Prop :=
  ready h s msg edit cmd ctx /\
  exists invoke,
    extractInvoke (config h) usedPrefix (tokenize (Content msg)) = Ok (invoke, args ctx) /\
    GetCommand h invoke = Some cmd.

End WithEnvironment.

End Handler.

(* ================================================================== *)
(** ** Values used in the examples *)

Module Examples.

Definition abcde : list string := ["a"; "b"; "c"; "d"; "e"].

(** A store that holds [abcde] alone, and the slice over all of it. *)
Definition abcde_heap : list (list string) := [abcde].
Definition abcde_slice : Arguments.ArgumentList := Arguments.mkSlice 0 0 5 5.

(** [strings.ToLower] on ASCII text. *)
Definition lower_byte (c : ascii) : ascii :=
  let n := N_of_ascii c in
  if ((65 <=? n) && (n <=? 90))%N then ascii_of_N (n + 32) else c.

Fixpoint ToLowerASCII (s : string) : string :=
  match s with
  | EmptyString => EmptyString
  | String c s' => String (lower_byte c) (ToLowerASCII s')
  end.

(** A configuration with the prefix [!], commands allowed in direct
    messages, and no guild prefixes. *)
Definition bang : Handler.Config :=
  Handler.mkConfig "!" false true true false false false false
    (fun _ => ("", None)).

Definition ping : Handler.Command :=
  Handler.mkCommand ["ping"] true (fun _ => None).

(** A second command that claims [ping] after a name of its own. *)
Definition pong : Handler.Command :=
  Handler.mkCommand ["pong"; "Ping"] true (fun _ => None).

Definition h_empty : Handler.handler := Handler.mkHandler bang ∅ [] [] ∅.

(** The handler after [ping] was registered. *)
Definition h_ping : Handler.handler :=
  snd (Handler.RegisterCommand ToLowerASCII ping h_empty).

(** A session that knows the channel and the guild of every message
    from its cache, and whose own user is [bot]. *)
Definition session0 : Handler.Session :=
  Handler.mkSession "bot"
    (fun _ => Handler.Got (Handler.mkChannel "c1" Handler.ChannelTypeGuildText))
    (fun _ => Handler.Failed "unknown channel")
    (fun _ => Handler.Got (Handler.mkGuild "g1"))
    (fun _ => Handler.Failed "unknown guild")
    (fun _ _ => None).

(** A message of the user [u1] with the given text. *)
Definition message_of (content : string) : Handler.Message :=
  Handler.mkMessage "m1" "c1" "g1" content (Some (Handler.mkUser "u1" false)) None.

Definition context_of (content : string) : Handler.Context :=
  Handler.mkContext session0 (message_of content) None false None None false [] None.

(** Middlewares: layer 1 is the one before the command, layer 2 the
    one after it. *)
Definition mw_after : Handler.Middleware :=
  Handler.mkMiddleware 2 (fun _ _ _ => (true, None)).
Definition mw_pass : Handler.Middleware :=
  Handler.mkMiddleware 1 (fun _ _ _ => (true, None)).
Definition mw_deny : Handler.Middleware :=
  Handler.mkMiddleware 3 (fun _ _ _ => (false, None)).

Definition h_with (mws : list Handler.Middleware) : Handler.handler :=
  Handler.set_middlewares mws h_ping.

(** The dispatch of a message with the given text, from an empty
    trace, with values for the parts of the package the two files do
    not define. *)
Definition dispatch (h : Handler.handler) (content : string)
  : Outcome unit * list Handler.Event :=
  Handler.messageHandler ToLowerASCII 1 2
    "command not found" "command is not executable in DM channels" "handler"
    h session0 (message_of content) false [].

(** The prefix [!] for everyone, and a guild prefix that starts with it. *)
Definition h_guild : Handler.handler :=
  Handler.mkHandler
    (Handler.mkConfig "!" false true true false false false false
       (fun _ => ("!p", None)))
    (Handler.cmdMap h_ping) [ping] [] ∅.

(** A prefix that ends with a space, the name attached to it. *)
Definition h_yo : Handler.handler :=
  Handler.mkHandler
    (Handler.mkConfig "yo " false true true false false false false
       (fun _ => ("", None)))
    (Handler.cmdMap h_ping) [ping] [] ∅.

(** The double quote as the prefix, a space after the prefix asked for. *)
Definition h_quote : Handler.handler :=
  Handler.mkHandler
    (Handler.mkConfig (String GoString.dq "") true true true false false false false
       (fun _ => ("", None)))
    (Handler.cmdMap h_ping) [ping] [] ∅.

(** A handler whose global prefix is empty. *)
Definition h_mute : Handler.handler :=
  Handler.mkHandler
    (Handler.mkConfig "" false true true false false false false
       (fun _ => ("?", None)))
    (Handler.cmdMap h_ping) [ping] [] ∅.

(** The text [!ban], a space, [John Doe] in double quotes, a space, [10]. *)
Definition ban_text : string :=
  "!ban " +:+ String GoString.dq ("John Doe" +:+ String GoString.dq " 10").

(** The text [a] and then, with no space between, [b c] in double quotes. *)
Definition adjacent_text : string :=
  "a" +:+ String GoString.dq ("b c" +:+ String GoString.dq "").

End Examples.

(* ================================================================== *)
(** * Properties *)

(** ** Go integers: no wrap-around within the range *)

Lemma wrap_in_range (z : Z) : GoInt.in_range z -> GoInt.wrap z = z.
Proof.
  unfold GoInt.in_range, GoInt.wrap, GoInt.MinInt, GoInt.MaxInt, GoInt.intSize.
  intros Hz. rewrite Z.mod_small; lia.
Qed.

(* ================================================================== *)
(** ** strconv *)

Section StrconvFacts.

Import Strconv.














End StrconvFacts.

(* ================================================================== *)
(** ** ArgumentList *)

Section ArgumentListFacts.

Import Arguments.

Lemma wf_contents_length (h : Heap) (al : ArgumentList) :
  wf h al -> length (contents h al) = s_len al.
Proof.
  intros [Hlen Hcap]. unfold contents.
  rewrite length_take, length_drop. lia.
Qed.

Lemma contents_lookup (h : Heap) (al : ArgumentList) (i : nat) :
  (i < s_len al)%nat ->
  contents h al !! i = array_of h al !! (s_off al + i)%nat.
Proof.
  intros Hi. unfold contents.
  rewrite lookup_take_lt by lia. apply lookup_drop.
Qed.

Lemma index_in_bounds (h : Heap) (al : ArgumentList) (i : Z) :
  wf h al -> 0 <= i < len al ->
  index al i h = (Ok (nth (Z.to_nat i) (contents h al) ""), h).
Proof.
  intros Hwf Hi. unfold index, len in *.
  replace ((i <? 0) || (i >=? Z.of_nat (s_len al))) with false
    by (symmetry; apply orb_false_intro; lia).
  unfold bind, get.
  rewrite nth_lookup, contents_lookup by lia.
  destruct (array_of h al !! (s_off al + Z.to_nat i)%nat) as [s|] eqn:E.
  - reflexivity.
  - apply lookup_ge_None in E. destruct Hwf as [? ?]. lia.
Qed.

Lemma Get_spec (h : Heap) (al : ArgumentList) (i : Z) :
  wf h al ->
  Get al i h =
    (Ok (if (0 <=? i) && (i <? len al)
         then nth (Z.to_nat i) (contents h al) "" else ""), h).
Proof.
  intros Hwf. unfold Get.
  destruct ((i <? 0) || (i >=? len al)) eqn:E.
  - replace ((0 <=? i) && (i <? len al)) with false; [reflexivity|].
    symmetry. apply andb_false_iff. apply orb_true_iff in E. lia.
  - apply orb_false_elim in E as [E1 E2].
    replace ((0 <=? i) && (i <? len al)) with true
      by (symmetry; apply andb_true_intro; lia).
    apply index_in_bounds; [assumption | lia].
Qed.

(** The window of a slice over its array, split at [i]. *)
Lemma contents_take (h : Heap) (al : ArgumentList) (i : nat) :
  (i <= s_len al)%nat ->
  take i (contents h al) = take i (drop (s_off al) (array_of h al)).
Proof.
  intros Hi. unfold contents. rewrite take_take. f_equal. lia.
Qed.

Lemma contents_drop (h : Heap) (al : ArgumentList) (j : nat) :
  drop j (contents h al)
  = take (s_len al - j) (drop (s_off al + j) (array_of h al)).
Proof.
  unfold contents. rewrite skipn_firstn_comm, drop_drop. reflexivity.
Qed.

Lemma write_at_window (a src : list string) (off i : nat) :
  (off + i <= length a)%nat ->
  take (i + length src) (drop off (write_at a (off + i) src))
  = take i (drop off a) ++ src.
Proof.
  intros Hle. unfold write_at.
  rewrite drop_app_le by (rewrite length_take; lia).
  rewrite <- take_drop_commute.
  rewrite app_assoc, take_app_length'; [reflexivity|].
  rewrite length_app, length_take, length_drop. lia.
Qed.

Lemma array_of_insert (h : Heap) (al res : ArgumentList) (a : list string) :
  s_arr res = s_arr al -> (0 < length (array_of h al))%nat ->
  array_of (<[ s_arr al := a ]> h) res = a.
Proof.
  intros Harr Hlen. unfold array_of in *. rewrite Harr.
  destruct (h !! s_arr al) as [a0|] eqn:E; [|simpl in Hlen; lia].
  rewrite list_lookup_insert_eq; [reflexivity|].
  eapply lookup_lt_Some; eassumption.
Qed.

(** X21: [Splice] where the sum fits.  For every well-formed argument
    list and every non-negative start [i] and count [r] whose sum
    [i + r] does not exceed the largest [int], [Splice] returns without
    a panic a list that holds: the tokens unchanged when [i] is at or
    beyond the length; the tokens before [i] when [i + r] reaches the
    length; and otherwise the tokens before [i] followed by those from
    [i + r] on. *)
Theorem Splice_within_int (h : Heap) (al : ArgumentList) (i r : Z) :
  wf h al -> 0 <= i -> 0 <= r -> i + r <= GoInt.MaxInt ->
  exists res h',
    Splice al i r h = (Ok res, h') /\
    contents h' res = Splice_spec (contents h al) i r.
Proof.
  intros Hwf Hi Hr Hsum.
  pose proof (wf_contents_length h al Hwf) as Hlen.
  destruct Hwf as [Hlc Hoc].
  unfold Splice, Splice_spec. rewrite Hlen. fold (len al).
  unfold GoInt.add. rewrite wrap_in_range
    by (unfold GoInt.in_range, GoInt.MinInt, GoInt.MaxInt, GoInt.intSize in *; lia).
  unfold len.
  destruct (i >=? Z.of_nat (s_len al)) eqn:E1.
  { exists al, h. split; reflexivity. }
  assert (Hi' : (Z.to_nat i < s_len al)%nat) by lia.
  assert (Hto : (i >? cap al) = false) by (unfold cap; lia).
  assert (Hneg : (i <? 0) = false) by lia.
  destruct (i + r >=? Z.of_nat (s_len al)) eqn:E2.
  { unfold slice_to. rewrite Hneg, Hto. simpl.
    eexists _, h. split; [reflexivity|].
    unfold contents at 1. simpl. rewrite contents_take by lia. reflexivity. }
  set (j := Z.to_nat (i + r)).
  assert (Hj : (j < s_len al)%nat) by (unfold j; lia).
  unfold bind at 1. unfold slice_to. rewrite Hneg, Hto. simpl.
  unfold bind at 1. unfold slice_from.
  replace ((i + r <? 0) || (i + r >? len al)) with false
    by (symmetry; apply orb_false_intro; unfold len; lia).
  simpl. fold j.
  unfold append, bind, get, put, ret. simpl.
  set (back := mkSlice (s_arr al) (s_off al + j) (s_len al - j) (s_cap al - j)).
  assert (Hsrc : contents h back = drop j (contents h al)).
  { rewrite contents_drop. reflexivity. }
  assert (Hn : length (contents h back) = (s_len al - j)%nat).
  { rewrite Hsrc, length_drop, Hlen. reflexivity. }
  replace (Z.to_nat i + length (contents h back) <=? s_cap al)%nat with true
    by (symmetry; apply Nat.leb_le; lia).
  eexists _, _. split; [reflexivity|].
  unfold contents at 1. simpl.
  change (array_of h (mkSlice (s_arr al) (s_off al) (Z.to_nat i) (s_cap al)))
    with (array_of h al).
  rewrite array_of_insert by (reflexivity || lia).
  rewrite write_at_window by lia.
  rewrite Hsrc, contents_take by lia. reflexivity.
Qed.

End ArgumentListFacts.

(* ================================================================== *)
(** ** The command registry *)

Section RegistryFacts.

Import Handler.

Variable ToLower : string -> string.

Lemma register_invokes_frame (cmd : Command) (invokes : list string) :
  forall (h h' : handler) (o : Outcome unit),
    register_invokes ToLower cmd invokes h = (o, h') ->
    config h' = config h /\
    cmdInstances h' = cmdInstances h /\
    middlewares h' = middlewares h /\
    (forall k old, cmdMap h !! k = Some old -> cmdMap h' !! k = Some old).
Proof.
  induction invokes as [|invoke rest IH]; intros h h' o Hrun.
  - inversion Hrun. subst. auto.
  - simpl in Hrun. unfold bind, get in Hrun. revert Hrun.
    destruct (cmdMap h !! (if InvokeToLower (config h) then ToLower invoke else invoke))
      as [old0|] eqn:Ek; intros Hrun.
    + inversion Hrun. subst. auto.
    + unfold put in Hrun. apply IH in Hrun.
      destruct Hrun as (Hc & Hi & Hm & Hk). simpl in *.
      repeat split; try assumption.
      intros k old Hold. apply Hk.
      rewrite lookup_insert_ne; [assumption|].
      intros <-. congruence.
Qed.

(** A name whose key is taken stops the loop with a panic. *)
Lemma register_invokes_duplicate (cmd : Command) (invokes : list string) :
  forall (h : handler) (invoke : string),
    In invoke invokes -> is_Some (cmdMap h !! mapKey ToLower h invoke) ->
    exists msg h', register_invokes ToLower cmd invokes h = (Panic msg, h').
Proof.
  induction invokes as [|first rest IH]; intros h invoke Hin Hdup; [destruct Hin|].
  simpl. unfold bind, get.
  destruct (cmdMap h !! (if InvokeToLower (config h) then ToLower first else first))
    as [old0|] eqn:Ek.
  - eexists _, _. reflexivity.
  - unfold put. destruct Hin as [->|Hin].
    + unfold mapKey in Hdup. rewrite Ek in Hdup. destruct Hdup as [? ?]. discriminate.
    + apply (IH _ invoke Hin).
      unfold mapKey in *. simpl.
      destruct Hdup as [old Hold].
      destruct (decide ((if InvokeToLower (config h) then ToLower first else first)
                        = (if InvokeToLower (config h) then ToLower invoke else invoke)))
        as [Heq|Hne].
      * rewrite Heq, lookup_insert_eq. eauto.
      * rewrite lookup_insert_ne by assumption. eauto.
Qed.

(** What the loop has done when it panics. *)
Lemma register_invokes_halted (cmd : Command) (invokes : list string) :
  forall (h h' : handler) (msg : string),
    register_invokes ToLower cmd invokes h = (Panic msg, h') ->
    exists pre dup post,
      invokes = pre ++ dup :: post /\
      msg = "invoke already '" +:+ mapKey ToLower h dup +:+ "' already registered" /\
      is_Some (cmdMap h' !! mapKey ToLower h dup) /\
      (forall p, In p pre -> cmdMap h' !! mapKey ToLower h p = Some cmd).
Proof.
  induction invokes as [|first rest IH]; intros h h' msg Hrun.
  - inversion Hrun.
  - simpl in Hrun. unfold bind, get in Hrun. revert Hrun.
    destruct (cmdMap h !! (if InvokeToLower (config h) then ToLower first else first))
      as [old0|] eqn:Ek; intros Hrun.
    + inversion Hrun. subst. exists [], first, rest.
      unfold mapKey. rewrite Ek. repeat split; eauto.
      intros p [].
    + unfold put in Hrun.
      pose proof (register_invokes_frame _ _ _ _ _ Hrun) as (_ & _ & _ & Hkeep).
      apply IH in Hrun. destruct Hrun as (pre & dup & post & -> & -> & Hdup & Hpre).
      exists (first :: pre), dup, post.
      unfold mapKey in *. simpl in *.
      repeat split; try assumption.
      intros p [<-|Hp]; [|apply Hpre; assumption].
      apply Hkeep. simpl. apply lookup_insert_eq.
Qed.

End RegistryFacts.

(* ================================================================== *)
(** ** The tokenizer *)

Section TokenizerFacts.

Import Regexp Handler.

Lemma in_class_plain (c : ascii) :
  in_class [Space; Lit GoString.dq] c = negb (plain c).
Proof.
  unfold in_class, plain. simpl.
  destruct (is_space c), (Ascii.eqb c GoString.dq); reflexivity.
Qed.

Lemma in_class_quote (c : ascii) :
  in_class [Lit GoString.dq] c = Ascii.eqb c GoString.dq.
Proof. unfold in_class. simpl. apply orb_false_r. Qed.

Lemma then_cons (h : hit) (l : list hit) (k : string -> list hit) :
  then_ (h :: l) k = map (extend (fst h)) (k (snd h)) ++ then_ l k.
Proof. reflexivity. Qed.

Lemma then_app (l1 l2 : list hit) (k : string -> list hit) :
  then_ (l1 ++ l2) k = then_ l1 k ++ then_ l2 k.
Proof. unfold then_. apply flat_map_app. Qed.

Lemma then_map_extend (c : ascii) (l : list hit) (k : string -> list hit) :
  then_ (map (extend (String c "")) l) k = map (extend (String c "")) (then_ l k).
Proof.
  induction l as [|h l IH]; [reflexivity|].
  simpl map. rewrite !then_cons, map_app, IH. f_equal.
  rewrite map_map. reflexivity.
Qed.

Lemma head_map {A B : Type} (f : A -> B) (l : list A) :
  head (map f l) = option_map f (head l).
Proof. destruct l; reflexivity. Qed.

Lemma head_app_some {A : Type} (l1 l2 : list A) (x : A) :
  head l1 = Some x -> head (l1 ++ l2) = Some x.
Proof. destruct l1; [discriminate | intros H; exact H]. Qed.

(** One round of a class under [star]. *)
Lemma star_class (cls : list class_item) (n : nat) (c : ascii) (s' : string) :
  star (exec (NotIn cls)) (S n) (String c s')
  = if in_class cls c then [("", String c s')]
    else map (extend (String c "")) (star (exec (NotIn cls)) n s')
         ++ [("", String c s')].
Proof.
  simpl star. simpl exec. destruct (in_class cls c); [reflexivity|].
  simpl List.filter.
  replace (String.length s' <? S (String.length s'))%nat with true
    by (symmetry; apply Nat.ltb_lt; lia).
  rewrite then_cons. simpl. rewrite app_nil_r. reflexivity.
Qed.

Lemma star_class_empty (cls : list class_item) (n : nat) :
  star (exec (NotIn cls)) n "" = [("", "")].
Proof. destruct n; reflexivity. Qed.

(** The first match of a run of plain bytes is the longest one. *)
Lemma head_star_plain (s : string) :
  forall n, (String.length s <= n)%nat ->
    head (star (exec (NotIn [Space; Lit GoString.dq])) n s) = Some (span_plain s).
Proof.
  induction s as [|c s' IH]; intros n Hn.
  - rewrite star_class_empty. reflexivity.
  - destruct n as [|n]; [simpl in Hn; lia|].
    rewrite star_class, in_class_plain. simpl span_plain.
    destruct (plain c); simpl negb; cbv iota; [|reflexivity].
    apply head_app_some. rewrite head_map, IH by (simpl in Hn; lia).
    simpl. destruct (span_plain s'). reflexivity.
Qed.

(** A quoted text closes at the first double quote, and only there. *)
Lemma quoted_tail (s : string) :
  forall n, (String.length s <= n)%nat ->
    then_ (star (exec (NotIn [Lit GoString.dq])) n s) (exec (Chr GoString.dq))
    = match upto_quote s with
      | Some (m, r) => [(m +:+ String GoString.dq "", r)]
      | None => []
      end.
Proof.
  induction s as [|c s' IH]; intros n Hn.
  - rewrite star_class_empty. reflexivity.
  - destruct n as [|n]; [simpl in Hn; lia|].
    rewrite star_class, in_class_quote. simpl upto_quote.
    destruct (Ascii.eqb_spec c GoString.dq) as [->|Hc].
    + reflexivity.
    + rewrite then_app, then_map_extend, IH by (simpl in Hn; lia).
      rewrite then_cons. simpl exec.
      replace (Ascii.eqb c GoString.dq) with false
        by (symmetry; apply Ascii.eqb_neq; exact Hc).
      simpl. rewrite app_nil_r.
      destruct (upto_quote s') as [[m r]|]; reflexivity.
Qed.

Lemma exec_Alt (a b : re) (s : string) : exec (Alt a b) s = exec a s ++ exec b s.
Proof. reflexivity. Qed.

Lemma exec_Seq (a b : re) (s : string) : exec (Seq a b) s = then_ (exec a s) (exec b).
Proof. reflexivity. Qed.

Lemma exec_Plus (a : re) (s : string) :
  exec (Plus a) s = then_ (exec a s) (fun s' => star (exec a) (String.length s') s').
Proof. reflexivity. Qed.

Lemma exec_Star (a : re) (s : string) :
  exec (Star a) s = star (exec a) (String.length s) s.
Proof. reflexivity. Qed.

Lemma exec_NotIn (cls : list class_item) (c : ascii) (s' : string) :
  exec (NotIn cls) (String c s') = if in_class cls c then [] else [(String c "", s')].
Proof. reflexivity. Qed.

Lemma exec_Chr (x c : ascii) (s' : string) :
  exec (Chr x) (String c s') = if Ascii.eqb c x then [(String c "", s')] else [].
Proof. reflexivity. Qed.

Lemma head_piece (s : string) : head (exec pieceRx s) = piece s.
Proof.
  destruct s as [|c s']; [reflexivity|].
  unfold pieceRx, piece.
  rewrite exec_Alt, exec_Plus, exec_NotIn, in_class_plain.
  destruct (plain c) eqn:Ep; simpl negb; cbv iota.
  - rewrite then_cons. apply head_app_some. apply head_app_some.
    simpl fst. simpl snd.
    rewrite head_map, head_star_plain by lia.
    simpl span_plain. rewrite Ep.
    simpl. destruct (span_plain s'). reflexivity.
  - change (then_ [] _) with (@nil hit). rewrite app_nil_l.
    rewrite exec_Seq, exec_Chr.
    destruct (Ascii.eqb c GoString.dq) eqn:Eq; [|reflexivity].
    rewrite then_cons. change (then_ [] _) with (@nil hit). rewrite app_nil_r.
    simpl fst. simpl snd.
    rewrite exec_Seq, exec_Star, quoted_tail by lia.
    destruct (upto_quote s') as [[m r]|]; reflexivity.
Qed.

Lemma span_plain_length (s : string) :
  (String.length (snd (span_plain s)) <= String.length s)%nat.
Proof.
  induction s as [|c s' IH]; simpl; [lia|].
  destruct (plain c); simpl; [|lia].
  destruct (span_plain s'). simpl in *. lia.
Qed.

Lemma upto_quote_length (s m r : string) :
  upto_quote s = Some (m, r) -> (String.length r < String.length s)%nat.
Proof.
  revert m. induction s as [|c s' IH]; simpl; intros m H; [discriminate|].
  destruct (Ascii.eqb c GoString.dq).
  - inversion H. subst. lia.
  - destruct (upto_quote s') as [[m' r']|]; [|discriminate].
    inversion H. subst. specialize (IH m' eq_refl). lia.
Qed.

(** A piece takes a byte or more. *)
Lemma piece_shorter (s m r : string) :
  piece s = Some (m, r) -> (String.length r < String.length s)%nat.
Proof.
  destruct s as [|c s']; [discriminate|]. unfold piece.
  destruct (plain c) eqn:Ep.
  - intros H. inversion H as [Hs]. simpl in Hs. rewrite Ep in Hs.
    pose proof (span_plain_length s') as Hl.
    destruct (span_plain s') as [m' r']. inversion Hs. subst. simpl in *. lia.
  - destruct (Ascii.eqb c GoString.dq); [|discriminate].
    destruct (upto_quote s') as [[m' r']|] eqn:Eu; [|discriminate].
    intros H. inversion H. subst. apply upto_quote_length in Eu. simpl. lia.
Qed.

Lemma pieces_length (n : nat) :
  forall s, (String.length (snd (pieces n s)) <= String.length s)%nat.
Proof.
  induction n as [|n IH]; intros s; simpl; [lia|].
  destruct (piece s) as [[m r]|] eqn:Ep; simpl; [|lia].
  apply piece_shorter in Ep. specialize (IH r).
  destruct (pieces n r). simpl in *. lia.
Qed.

Lemma pieces_S (n : nat) (s : string) :
  pieces (S n) s
  = match piece s with
    | Some (m, r) => let (m', r') := pieces n r in (m +:+ m', r')
    | None => (EmptyString, s)
    end.
Proof. reflexivity. Qed.

(** More fuel than the length changes nothing. *)
Lemma pieces_fuel (n : nat) :
  forall m s, (String.length s <= n)%nat -> (String.length s <= m)%nat ->
    pieces n s = pieces m s.
Proof.
  induction n as [|n IH]; intros m s Hn Hm.
  - destruct s; [|simpl in Hn; lia]. destruct m; reflexivity.
  - destruct m as [|m].
    + destruct s; [reflexivity | simpl in Hm; lia].
    + simpl. destruct (piece s) as [[p r]|] eqn:Ep; [|reflexivity].
      apply piece_shorter in Ep. rewrite (IH m r) by lia. reflexivity.
Qed.

Lemma star_S (step : string -> list hit) (n : nat) (s : string) :
  star step (S n) s
  = then_ (List.filter (fun h => (String.length (snd h) <? String.length s)%nat) (step s))
          (star step n)
    ++ [("", s)].
Proof. reflexivity. Qed.

(** The first match of a run of pieces is the longest run. *)
Lemma head_star_pieces (n : nat) :
  forall s, (String.length s <= n)%nat ->
    head (star (exec pieceRx) n s) = Some (pieces n s).
Proof.
  induction n as [|n IH]; intros s Hn; [reflexivity|].
  rewrite star_S. simpl pieces.
  pose proof (head_piece s) as Hh.
  destruct (piece s) as [[m r]|] eqn:Ep.
  - destruct (exec pieceRx s) as [|h0 tl]; [discriminate|].
    inversion Hh. subst h0.
    apply piece_shorter in Ep.
    simpl List.filter.
    replace (String.length r <? String.length s)%nat with true
      by (symmetry; apply Nat.ltb_lt; exact Ep).
    rewrite then_cons. apply head_app_some. apply head_app_some.
    rewrite head_map, IH by (simpl; lia).
    simpl. destruct (pieces n r). reflexivity.
  - destruct (exec pieceRx s); [reflexivity | discriminate].
Qed.

(** The match of [argsRx] at the head of a text: the longest run of
    pieces, when the text starts with a piece. *)
Lemma match_here_argsRx (s : string) :
  match_here argsRx s
  = match piece s with
    | Some _ => Some (pieces (String.length s) s)
    | None => None
    end.
Proof.
  unfold match_here. change argsRx with (Plus pieceRx). rewrite exec_Plus.
  pose proof (head_piece s) as Hh.
  destruct (piece s) as [[m r]|] eqn:Ep.
  - destruct (exec pieceRx s) as [|h0 tl]; [discriminate|].
    inversion Hh. subst h0.
    rewrite then_cons. apply head_app_some.
    rewrite head_map, head_star_pieces by (simpl; lia).
    pose proof (piece_shorter _ _ _ Ep) as Hlt.
    destruct s as [|c s']; [discriminate|].
    change (String.length (String c s')) with (S (String.length s')).
    rewrite pieces_S, Ep.
    rewrite (pieces_fuel (String.length s') (String.length r) r)
      by (simpl in Hlt; simpl; lia).
    simpl. destruct (pieces (String.length r) r). reflexivity.
  - destruct (exec pieceRx s); [reflexivity | discriminate].
Qed.

Lemma pieces_shorter (s : string) (n : nat) :
  piece s <> None ->
  (String.length (snd (pieces (S n) s)) < String.length s)%nat.
Proof.
  intros Hp. simpl.
  destruct (piece s) as [[m r]|] eqn:Ep; [|contradiction].
  apply piece_shorter in Ep. pose proof (pieces_length n r) as Hl.
  destruct (pieces n r). simpl in *. lia.
Qed.

(** [FindAllString] with [argsRx], quotes removed, is the scanner of
    the specification, with any fuel. *)
Lemma FindAll_scan (n : nat) :
  forall s, map GoString.ReplaceQuote (FindAll_loop argsRx n s) = scan n s.
Proof.
  induction n as [|n IH]; intros s; [reflexivity|].
  simpl. destruct s as [|c s']; [reflexivity|].
  rewrite match_here_argsRx.
  destruct (piece (String c s')) as [p|] eqn:Ep; [|apply IH].
  assert (Hlt : (String.length (snd (pieces (String.length (String c s')) (String c s')))
                 < String.length (String c s'))%nat).
  { apply (pieces_shorter (String c s') (String.length s')). congruence. }
  destruct (pieces (String.length (String c s')) (String c s')) as [m r].
  simpl snd in Hlt.
  replace (String.length r <? String.length (String c s'))%nat with true
    by (symmetry; apply Nat.ltb_lt; exact Hlt).
  simpl map. rewrite IH. reflexivity.
Qed.

Lemma scan_fuel (n : nat) :
  forall m s, (String.length s <= n)%nat -> (String.length s <= m)%nat ->
    scan n s = scan m s.
Proof.
  induction n as [|n IH]; intros m s Hn Hm.
  - destruct s; [|simpl in Hn; lia]. destruct m; reflexivity.
  - destruct m as [|m].
    + destruct s; [reflexivity | simpl in Hm; lia].
    + simpl. destruct s as [|c s']; [reflexivity|].
      destruct (piece (String c s')) as [p|] eqn:Ep.
      * assert (Hlt : (String.length (snd (pieces (String.length (String c s'))
                                              (String c s')))
                       < String.length (String c s'))%nat).
        { apply (pieces_shorter (String c s') (String.length s')). congruence. }
        destruct (pieces (String.length (String c s')) (String c s')) as [k r].
        simpl in Hlt, Hn, Hm. rewrite (IH m r) by lia. reflexivity.
      * simpl in Hn, Hm. apply IH; lia.
Qed.

(** Removing the quotes of a token without one changes nothing, so
    the test before the replacement is of no effect. *)
Lemma ReplaceQuote_guarded (k : string) :
  (if GoString.ContainsQuote k then GoString.ReplaceQuote k else k)
  = GoString.ReplaceQuote k.
Proof.
  destruct (GoString.ContainsQuote k) eqn:E; [reflexivity|].
  induction k as [|c k IH]; [reflexivity|].
  simpl in *. destruct (Ascii.eqb c GoString.dq); [discriminate|].
  rewrite <- IH by exact E. reflexivity.
Qed.

Lemma tokenize_loop (n : nat) (s : string) :
  map (fun k => if GoString.ContainsQuote k then GoString.ReplaceQuote k else k)
      (FindAll_loop argsRx n s)
  = scan n s.
Proof.
  rewrite <- FindAll_scan. apply map_ext. intros k. apply ReplaceQuote_guarded.
Qed.

(** *** The first token of a text that starts with a prefix *)

Lemma str_app_cons (x : ascii) (a b : string) : String x a +:+ b = String x (a +:+ b).
Proof. reflexivity. Qed.

Lemma str_app_assoc (a b c : string) : (a +:+ b) +:+ c = a +:+ (b +:+ c).
Proof.
  induction a as [|x a IH]; [reflexivity|].
  rewrite !str_app_cons, IH. reflexivity.
Qed.

Lemma str_app_length (a b : string) :
  String.length (a +:+ b) = (String.length a + String.length b)%nat.
Proof.
  induction a as [|x a IH]; [reflexivity|].
  rewrite str_app_cons. simpl String.length. rewrite IH. reflexivity.
Qed.

Lemma HasPrefix_app (s p : string) :
  GoString.HasPrefix s p = true -> exists rest, s = p +:+ rest.
Proof.
  unfold GoString.HasPrefix. revert s.
  induction p as [|x p IH]; intros s H; [exists s; reflexivity|].
  destruct s as [|y s]; [discriminate|]. simpl in H.
  destruct (ascii_dec x y) as [->|]; [|discriminate].
  destruct (IH s H) as [rest ->]. exists rest. reflexivity.
Qed.

Lemma span_plain_app (p rest : string) :
  all_plain p = true ->
  span_plain (p +:+ rest) = (p +:+ fst (span_plain rest), snd (span_plain rest)).
Proof.
  induction p as [|c p IH]; intros Hp.
  - change ("" +:+ rest) with rest. destruct (span_plain rest); reflexivity.
  - simpl in Hp. apply andb_true_iff in Hp as [Hc Hp].
    rewrite str_app_cons. simpl span_plain. rewrite Hc, (IH Hp). reflexivity.
Qed.

Lemma ReplaceQuote_plain_app (p x : string) :
  all_plain p = true ->
  GoString.ReplaceQuote (p +:+ x) = p +:+ GoString.ReplaceQuote x.
Proof.
  induction p as [|c p IH]; intros Hp; [reflexivity|].
  simpl in Hp. apply andb_true_iff in Hp as [Hc Hp].
  unfold plain in Hc. apply andb_true_iff in Hc as [_ Hq].
  rewrite str_app_cons. simpl GoString.ReplaceQuote.
  destruct (Ascii.eqb c GoString.dq); [discriminate|].
  rewrite (IH Hp). reflexivity.
Qed.

(** A text that starts with a non-empty run of plain bytes has a
    first token, and the token starts with that run. *)
Lemma tokenize_plain_prefix (p rest : string) :
  all_plain p = true -> p <> "" ->
  exists tail toks, tokenize (p +:+ rest) = (p +:+ tail) :: toks.
Proof.
  intros Hp Hne.
  unfold tokenize, FindAllString. rewrite tokenize_loop.
  destruct p as [|c p]; [contradiction|].
  pose proof Hp as Hp'. simpl in Hp'. apply andb_true_iff in Hp' as [Hc _].
  change (String c p +:+ rest) with (String c (p +:+ rest)).
  change (String.length (String c (p +:+ rest))) with (S (String.length (p +:+ rest))).
  change (scan (S ?n) (String c ?s)) with
    (match piece (String c s) with
     | Some _ => let (m, r) := pieces (String.length (String c s)) (String c s) in
                 GoString.ReplaceQuote m :: scan n r
     | None => scan n s
     end).
  assert (Hpiece : piece (String c (p +:+ rest))
                   = Some (String c p +:+ fst (span_plain rest), snd (span_plain rest))).
  { unfold piece. rewrite Hc.
    change (String c (p +:+ rest)) with (String c p +:+ rest).
    rewrite (span_plain_app _ _ Hp). reflexivity. }
  rewrite Hpiece.
  change (String.length (String c (p +:+ rest))) with (S (String.length (p +:+ rest))).
  rewrite pieces_S, Hpiece.
  destruct (pieces (String.length (p +:+ rest)) (snd (span_plain rest))) as [m' r'].
  rewrite str_app_assoc, (ReplaceQuote_plain_app _ _ Hp).
  eexists _, _. reflexivity.
Qed.

Lemma extractInvoke_first_token (cfg : Config) (usedPrefix first : string)
    (rest : list string) :
  (String.length usedPrefix <= String.length first)%nat ->
  extractInvoke cfg usedPrefix (first :: rest)
  = Ok (if SpaceAfterPrefix cfg
        then match rest with
             | second :: rest' => (second, rest')
             | [] => ("", [])
             end
        else (GoString.drop (String.length usedPrefix) first, rest)).
Proof.
  intros Hlen. unfold extractInvoke.
  destruct (SpaceAfterPrefix cfg).
  - destruct rest as [|second rest']; [reflexivity|].
    replace (1 <? Z.of_nat (length (first :: second :: rest'))) with true
      by (symmetry; apply Z.ltb_lt; simpl length; lia).
    unfold index, Handler.slice_from. simpl.
    replace (Z.of_nat (S (S (length rest'))) <? 2) with false
      by (symmetry; apply Z.ltb_ge; lia).
    reflexivity.
  - unfold index. simpl. unfold GoString.slice_from, GoString.len.
    replace ((Z.of_nat (String.length usedPrefix) <? 0)
             || (Z.of_nat (String.length first) <? Z.of_nat (String.length usedPrefix)))
      with false by (symmetry; apply orb_false_intro; lia).
    rewrite Nat2Z.id. unfold Handler.slice_from. simpl.
    replace (Z.of_nat (S (length rest)) <? 1) with false
      by (symmetry; apply Z.ltb_ge; lia).
    reflexivity.
Qed.

(** With a used prefix of plain bytes the extraction never panics. *)
Lemma extractInvoke_plain_prefix (cfg : Config) (usedPrefix content : string) :
  all_plain usedPrefix = true -> usedPrefix <> "" ->
  GoString.HasPrefix content usedPrefix = true ->
  exists invoke args,
    extractInvoke cfg usedPrefix (tokenize content) = Ok (invoke, args).
Proof.
  intros Hp Hne Hpre.
  destruct (HasPrefix_app _ _ Hpre) as [rest ->].
  destruct (tokenize_plain_prefix usedPrefix rest Hp Hne) as (tail & toks & ->).
  rewrite extractInvoke_first_token by (rewrite str_app_length; lia).
  destruct (SpaceAfterPrefix cfg); [destruct toks|]; eexists _, _; reflexivity.
Qed.

End TokenizerFacts.

(* ================================================================== *)
(** ** The middleware pipeline *)

Section MiddlewareFacts.

Import Handler.

Variables (cmd : Command) (ctx : Context) (layer : Z).

Lemma subscribed_test (mw : Middleware) :
  (Z.land (GetLayer mw) layer =? 0) = negb (subscribed layer mw).
Proof. unfold subscribed. rewrite negb_involutive. reflexivity. Qed.

Lemma visits_cons (mw : Middleware) (mws : list Middleware) :
  visits cmd ctx layer (mw :: mws)
  = if subscribed layer mw
    then EvHandle mw cmd ctx layer :: visits cmd ctx layer mws
    else visits cmd ctx layer mws.
Proof.
  unfold visits. rewrite filter_cons.
  destruct (subscribed layer mw); reflexivity.
Qed.

(** A run that no middleware stops visits them all and returns true. *)
Lemma loop_completes (mws : list Middleware) :
  Forall (continues cmd ctx layer) mws ->
  forall t,
    executeMiddlewares_loop mws cmd ctx layer t
    = (Ok true, t ++ visits cmd ctx layer mws).
Proof.
  induction 1 as [|mw mws Hmw _ IH]; intros t.
  - simpl. unfold ret, visits. simpl. rewrite app_nil_r. reflexivity.
  - simpl. rewrite subscribed_test, visits_cons.
    destruct (subscribed layer mw) eqn:Es; simpl.
    + unfold bind, emit, modify. rewrite (Hmw Es). simpl.
      rewrite IH, <- app_assoc. reflexivity.
    + apply IH.
Qed.

(** A run stopped by the middleware [mw]: the ones before it were
    visited, [mw] was called, and its error, if it returned one, was
    reported once; the run returns false. *)
Lemma loop_stops (pre post : list Middleware) (mw : Middleware)
    (next : bool) (e : option error) :
  Forall (continues cmd ctx layer) pre ->
  subscribed layer mw = true ->
  Handle mw cmd ctx layer = (next, e) ->
  e <> None \/ next = false ->
  forall t,
    executeMiddlewares_loop (pre ++ mw :: post) cmd ctx layer t
    = (Ok false,
       t ++ visits cmd ctx layer pre ++ EvHandle mw cmd ctx layer ::
         match e with
         | Some err => [EvOnError ctx ErrTypMiddleware err]
         | None => []
         end).
Proof.
  intros Hpre Hsub Hmw Hstop.
  induction Hpre as [|m pre Hm _ IH]; intros t.
  - simpl. rewrite subscribed_test, Hsub. simpl.
    unfold bind, emit, modify. rewrite Hmw.
    destruct e as [err|].
    + simpl. unfold ret. rewrite <- app_assoc. reflexivity.
    + destruct Hstop as [Hne | ->]; [congruence|]. reflexivity.
  - simpl. rewrite subscribed_test, visits_cons.
    destruct (subscribed layer m) eqn:Es; simpl.
    + unfold bind, emit, modify. rewrite (Hm Es). simpl.
      rewrite IH, <- app_assoc. reflexivity.
    + apply IH.
Qed.

End MiddlewareFacts.

(* ================================================================== *)
(** ** The dispatch of a message *)

Section DispatchFacts.

Import Handler.

Variable ToLower : string -> string.
Variables LayerBeforeCommand LayerAfterCommand : Z.
Variables ErrCommandNotFound ErrCommandNotExecutableInDMs : error.
Variable ObjectMapKeyHandler : string.

Lemma quiet_ret {A : Type} (a : A) : quiet (ret a).
Proof. intros t. exists (Ok a), []. rewrite app_nil_r. split; reflexivity. Qed.

Lemma quiet_lift {A : Type} (o : Outcome A) : quiet (lift o).
Proof. intros t. exists o, []. rewrite app_nil_r. split; reflexivity. Qed.

Lemma quiet_emit (e : Event) :
  (forall g, e <> EvGuildPrefixGetter g) -> quiet (emit e).
Proof.
  intros He t. exists (Ok tt), [e]. split; [reflexivity|].
  destruct e; try reflexivity. exfalso. eapply He. reflexivity.
Qed.

Lemma quiet_bind {A B : Type} (c : M Trace A) (k : A -> M Trace B) :
  quiet c -> (forall a, quiet (k a)) -> quiet (bind c k).
Proof.
  intros Hc Hk t. destruct (Hc t) as (o & ev & Hrun & Hev).
  unfold bind. rewrite Hrun. destruct o as [a|msg].
  - destruct (Hk a (t ++ ev)) as (o' & ev' & Hrun' & Hev').
    exists o', (ev ++ ev'). rewrite Hrun', app_assoc. split; [reflexivity|].
    unfold getter_calls in *. rewrite flat_map_app, Hev, Hev'. reflexivity.
  - exists (Panic msg), ev. split; [reflexivity | exact Hev].
Qed.

Ltac quiet_step :=
  first
    [ apply quiet_ret
    | apply quiet_lift
    | apply quiet_emit; discriminate
    | apply quiet_bind; [|intros ?]
    | match goal with
      | |- quiet (if ?b then _ else _) => destruct b
      | |- quiet (match ?x with _ => _ end) => destruct x
      end ].

Lemma quiet_loop (mws : list Middleware) (cmd : Command) (ctx : Context) (layer : Z) :
  quiet (executeMiddlewares_loop mws cmd ctx layer).
Proof.
  induction mws as [|mw mws IH]; simpl; [apply quiet_ret|].
  repeat quiet_step; exact IH.
Qed.

Lemma quiet_runCommand (h : handler) (cmd : Command) (ctx : Context) :
  quiet (runCommand LayerBeforeCommand LayerAfterCommand ObjectMapKeyHandler h cmd ctx).
Proof.
  unfold runCommand, executeMiddlewares.
  repeat first [ apply quiet_loop | quiet_step ].
Qed.

Lemma quiet_parseAndRun (h : handler) (ctx : Context) (usedPrefix : string) :
  quiet (parseAndRun ToLower LayerBeforeCommand LayerAfterCommand
           ErrCommandNotFound ErrCommandNotExecutableInDMs ObjectMapKeyHandler
           h ctx usedPrefix).
Proof.
  unfold parseAndRun.
  repeat first [ apply quiet_runCommand | quiet_step ].
Qed.

Lemma quiet_resolveAndRun (h : handler) (ctx : Context) (usedPrefix : string) :
  quiet (resolveAndRun ToLower LayerBeforeCommand LayerAfterCommand
           ErrCommandNotFound ErrCommandNotExecutableInDMs ObjectMapKeyHandler
           h ctx usedPrefix).
Proof.
  unfold resolveAndRun.
  repeat first [ apply quiet_parseAndRun | quiet_step ].
Qed.

(** [messageHandler] on a message the filters let through: the
    choice of the prefix. *)
Lemma messageHandler_admitted (h : handler) (s : Session) (msg : Message) (isEdit : bool) :
  admitted h s msg ->
  let ctx0 := mkContext s msg (Member msg) isEdit None None false [] None in
  let dispatch :=
    resolveAndRun ToLower LayerBeforeCommand LayerAfterCommand
      ErrCommandNotFound ErrCommandNotExecutableInDMs ObjectMapKeyHandler h ctx0 in
  let continue (usedPrefix : string) : M Trace unit :=
    if String.eqb usedPrefix "" then ret tt else dispatch usedPrefix in
  messageHandler ToLower LayerBeforeCommand LayerAfterCommand
    ErrCommandNotFound ErrCommandNotExecutableInDMs ObjectMapKeyHandler h s msg isEdit
  = if GoString.HasPrefix (Content msg) (GeneralPrefix (config h))
    then continue (GeneralPrefix (config h))
    else
      let* _ := emit (EvGuildPrefixGetter (GuildID msg)) in
      match GuildPrefixGetter (config h) (GuildID msg) with
      | (_, Some err) => emit (EvOnError ctx0 ErrTypGuildPrefixGetter err)
      | (guildPrefix, None) =>
          if negb (String.eqb guildPrefix "")
             && GoString.HasPrefix (Content msg) guildPrefix
          then continue guildPrefix
          else continue ""
      end.
Proof.
  intros (author & Hauthor & Hself & Hlen & Hbot) ctx0 dispatch continue.
  unfold messageHandler. rewrite Hauthor.
  replace (String.eqb (UserID author) (StateUserID s)) with false
    by (symmetry; apply String.eqb_neq; exact Hself).
  replace (GoString.len (Content msg) <? 2) with false by lia.
  replace (negb (AllowBots (config h)) && Bot author) with false
    by (destruct Hbot as [-> | ->]; [reflexivity | rewrite andb_false_r; reflexivity]).
  reflexivity.
Qed.

Lemma classic_admitted (h : handler) (s : Session) (msg : Message) :
  admitted h s msg \/ ~ admitted h s msg.
Proof.
  unfold admitted.
  destruct (Author msg) as [author|]; [|right; intros (a & Ha & _); discriminate Ha].
  destruct (String.eqb_spec (UserID author) (StateUserID s)) as [Heq|Hself].
  { right. intros (a & Ha & Hne & _). inversion Ha. subst. contradiction. }
  destruct (Z_lt_dec (GoString.len (Content msg)) 2) as [Hshort|Hlong].
  { right. intros (a & _ & _ & Hl & _). lia. }
  destruct (AllowBots (config h)) eqn:Hallow.
  { left. exists author. repeat split; auto. lia. }
  destruct (Bot author) eqn:Hbot.
  - right. intros (a & Ha & _ & _ & [Hb|Hb]); [discriminate Hb|].
    inversion Ha. subst. congruence.
  - left. exists author. repeat split; auto. lia.
Qed.

Lemma messageHandler_filtered (h : handler) (s : Session) (msg : Message) (isEdit : bool) :
  ~ admitted h s msg ->
  messageHandler ToLower LayerBeforeCommand LayerAfterCommand
    ErrCommandNotFound ErrCommandNotExecutableInDMs ObjectMapKeyHandler h s msg isEdit
  = ret tt.
Proof.
  intros Hno. unfold messageHandler.
  destruct (Author msg) as [author|] eqn:Hauthor; [|reflexivity].
  destruct (String.eqb_spec (UserID author) (StateUserID s)) as [|Hself]; [reflexivity|].
  destruct (GoString.len (Content msg) <? 2) eqn:Hlen; [reflexivity|].
  destruct (negb (AllowBots (config h)) && Bot author) eqn:Hbot; [reflexivity|].
  exfalso. apply Hno. exists author.
  split; [exact Hauthor|]. split; [exact Hself|]. split; [lia|].
  destruct (AllowBots (config h)); [left; reflexivity | right; exact Hbot].
Qed.

End DispatchFacts.

(* ================================================================== *)
(** * The claims of the specification *)

(** ** The tokenizer *)

(** C1, as the code has it: the tokens of a text are those of the
    grammar in which a token is a longest run of pieces that touch, a
    piece being a longest run of bytes that are neither white space nor
    a double quote, or a text between two double quotes; all the double
    quotes of a token are removed, and a byte that starts no piece is
    passed over.  The length of the text is fuel enough for the search,
    more fuel gives the same tokens.  The text of [!ban], a space,
    [John Doe] in double quotes, a space and [10] has the tokens
    [!ban], [John Doe] and [10]. *)
Theorem tokenizer_grammar :
  (forall text : string, Handler.tokenize text = Handler.tokens text) /\
  (forall (text : string) (n : nat),
      (String.length text <= n)%nat ->
      map (fun k => if GoString.ContainsQuote k then GoString.ReplaceQuote k else k)
          (Regexp.FindAll_loop Handler.argsRx n text)
      = Handler.tokenize text) /\
  Handler.tokenize Examples.ban_text = ["!ban"; "John Doe"; "10"].
Proof.
  split; [|split].
  - intros text. unfold Handler.tokenize, Handler.tokens, Regexp.FindAllString.
    apply tokenize_loop.
  - intros text n Hn. unfold Handler.tokenize, Regexp.FindAllString.
    rewrite !tokenize_loop. apply scan_fuel; lia.
  - vm_compute. reflexivity.
Qed.

Lemma tokenizer_grammar_witness :
  map (fun k => if GoString.ContainsQuote k then GoString.ReplaceQuote k else k)
      (Regexp.FindAll_loop Handler.argsRx 100 Examples.ban_text)
  = Handler.tokenize Examples.ban_text.
Proof.
  apply (proj1 (proj2 tokenizer_grammar) Examples.ban_text 100%nat).
  vm_compute. lia.
Defined.

(** C1 as stated fails: in the grammar of the claim a token is one
    piece, so the text of [a] followed at once by [b c] in double
    quotes would have the two tokens [a] and [b c]; the pattern of the
    code repeats the pieces, and the text has the one token [ab c]. *)
Lemma tokens_join_adjacent_pieces :
  ~ (forall text : string, Handler.tokenize text = Handler.tokens_as_stated text).
Proof.
  intros H. specialize (H Examples.adjacent_text).
  vm_compute in H. discriminate H.
Qed.

(** ** The prefix *)

(** C2: the choice of the prefix.  When the text starts with the
    global prefix, the dispatch goes on with the global prefix (and
    stops at once when that prefix is empty) and the guild prefix
    provider is not called, in the whole dispatch.  Only when the text
    does not start with it, and the message got past the filters, is
    the provider called, once: its error is reported with the kind
    [ErrTypGuildPrefixGetter]; a non-empty guild prefix the text starts
    with is the prefix the dispatch goes on with; and otherwise the
    dispatch stops with nothing more in the trace, so with no error
    reported.  A message the filters stop leaves the trace as it was. *)
Theorem prefix_resolution
    (ToLower : string -> string) (LayerBeforeCommand LayerAfterCommand : Z)
    (ErrCommandNotFound ErrCommandNotExecutableInDMs : Handler.error)
    (ObjectMapKeyHandler : string)
    (h : Handler.handler) (s : Handler.Session) (msg : Handler.Message)
    (isEdit : bool) (t : list Handler.Event) :
  let cfg := Handler.config h in
  let content := Handler.Content msg in
  let ctx0 := Handler.mkContext s msg (Handler.Member msg) isEdit None None false [] None in
  let dispatch :=
    Handler.resolveAndRun ToLower LayerBeforeCommand LayerAfterCommand
      ErrCommandNotFound ErrCommandNotExecutableInDMs ObjectMapKeyHandler h ctx0 in
  let run :=
    Handler.messageHandler ToLower LayerBeforeCommand LayerAfterCommand
      ErrCommandNotFound ErrCommandNotExecutableInDMs ObjectMapKeyHandler h s msg isEdit in
  (GoString.HasPrefix content (Handler.GeneralPrefix cfg) = true ->
     (exists o ev, run t = (o, t ++ ev) /\ Handler.getter_calls ev = []) /\
     (Handler.admitted h s msg ->
        run t = if String.eqb (Handler.GeneralPrefix cfg) "" then (Ok tt, t)
                else dispatch (Handler.GeneralPrefix cfg) t)) /\
  (GoString.HasPrefix content (Handler.GeneralPrefix cfg) = false ->
   Handler.admitted h s msg ->
     let asked := t ++ [Handler.EvGuildPrefixGetter (Handler.GuildID msg)] in
     match Handler.GuildPrefixGetter cfg (Handler.GuildID msg) with
     | (_, Some err) =>
         run t = (Ok tt, asked ++ [Handler.EvOnError ctx0 Handler.ErrTypGuildPrefixGetter err])
     | (guildPrefix, None) =>
         if negb (String.eqb guildPrefix "") && GoString.HasPrefix content guildPrefix
         then run t = dispatch guildPrefix asked
         else run t = (Ok tt, asked)
     end) /\
  (~ Handler.admitted h s msg -> run t = (Ok tt, t)).
Proof.
  intros cfg content ctx0 dispatch run.
  split; [|split].
  - intros Hglobal.
    assert (Hadm : Handler.admitted h s msg ->
              run t = if String.eqb (Handler.GeneralPrefix cfg) "" then (Ok tt, t)
                      else dispatch (Handler.GeneralPrefix cfg) t).
    { intros Hadm. unfold run.
      rewrite (messageHandler_admitted ToLower LayerBeforeCommand LayerAfterCommand
                 ErrCommandNotFound ErrCommandNotExecutableInDMs ObjectMapKeyHandler
                 h s msg isEdit Hadm).
      cbv zeta. fold content cfg. rewrite Hglobal.
      destruct (String.eqb (Handler.GeneralPrefix cfg) ""); reflexivity. }
    split; [|exact Hadm].
    destruct (classic_admitted h s msg) as [Hyes|Hno].
    + rewrite (Hadm Hyes).
      destruct (String.eqb (Handler.GeneralPrefix cfg) "").
      * exists (Ok tt), []. rewrite app_nil_r. split; reflexivity.
      * apply quiet_resolveAndRun.
    + unfold run.
      rewrite (messageHandler_filtered ToLower LayerBeforeCommand LayerAfterCommand
                 ErrCommandNotFound ErrCommandNotExecutableInDMs ObjectMapKeyHandler
                 h s msg isEdit Hno).
      exists (Ok tt), []. rewrite app_nil_r. split; reflexivity.
  - intros Hglobal Hadm asked. unfold run.
    rewrite (messageHandler_admitted ToLower LayerBeforeCommand LayerAfterCommand
               ErrCommandNotFound ErrCommandNotExecutableInDMs ObjectMapKeyHandler
               h s msg isEdit Hadm).
    cbv zeta. fold content cfg. rewrite Hglobal.
    unfold bind, Handler.emit, modify. fold asked.
    destruct (Handler.GuildPrefixGetter cfg (Handler.GuildID msg)) as [guildPrefix [err|]].
    + reflexivity.
    + destruct (negb (String.eqb guildPrefix "") && GoString.HasPrefix content guildPrefix)
        eqn:Eg.
      * apply andb_true_iff in Eg as [Hne _].
        destruct (String.eqb guildPrefix ""); [discriminate Hne | reflexivity].
      * reflexivity.
  - intros Hno. unfold run.
    rewrite (messageHandler_filtered ToLower LayerBeforeCommand LayerAfterCommand
               ErrCommandNotFound ErrCommandNotExecutableInDMs ObjectMapKeyHandler
               h s msg isEdit Hno).
    reflexivity.
Qed.

Lemma prefix_resolution_witness :
  Handler.getter_calls (snd (Examples.dispatch Examples.h_guild "!ping")) = [] /\
  Handler.executions (snd (Examples.dispatch Examples.h_guild "!ping")) = [Examples.ping].
Proof.
  destruct (proj1 (prefix_resolution Examples.ToLowerASCII 1 2
                     "command not found" "command is not executable in DM channels"
                     "handler" Examples.h_guild Examples.session0
                     (Examples.message_of "!ping") false []))
    as [(o & ev & Hrun & Hquiet) _].
  - reflexivity.
  - unfold Examples.dispatch. rewrite Hrun. simpl. split; [exact Hquiet|].
    assert (Hsnd : ev = snd (Examples.dispatch Examples.h_guild "!ping"))
      by (unfold Examples.dispatch; rewrite Hrun; reflexivity).
    rewrite Hsnd. vm_compute. reflexivity.
Defined.

(** ** The layer before the command *)



(** ** Duplicate invocation names *)

(** C4: registering a command one of whose invocation names has a
    key (the name, folded to lower case when the configuration says
    so) that is already in the registry panics; the key still maps to
    the command it mapped to, and so does every other key of the
    registry. *)
Theorem RegisterCommand_duplicate_halts
    (ToLower : string -> string) (h : Handler.handler)
    (cmd old : Handler.Command) (invoke : string) :
  In invoke (Handler.GetInvokes cmd) ->
  Handler.cmdMap h !! Handler.mapKey ToLower h invoke = Some old ->
  exists msg h',
    Handler.RegisterCommand ToLower cmd h = (Panic msg, h') /\
    Handler.cmdMap h' !! Handler.mapKey ToLower h invoke = Some old /\
    (forall k c, Handler.cmdMap h !! k = Some c -> Handler.cmdMap h' !! k = Some c).
Proof.
  intros Hin Hold.
  unfold Handler.RegisterCommand, bind, modify.
  set (h1 := Handler.set_cmdInstances (Handler.cmdInstances h ++ [cmd]) h).
  destruct (register_invokes_duplicate ToLower cmd (Handler.GetInvokes cmd)
              h1 invoke Hin) as (msg & h' & Hrun).
  { unfold Handler.mapKey. simpl. unfold Handler.mapKey in Hold.
    rewrite Hold. eauto. }
  exists msg, h'. split; [exact Hrun|].
  apply register_invokes_frame in Hrun as (_ & _ & _ & Hkeep).
  split; [apply Hkeep; exact Hold | exact Hkeep].
Qed.

Lemma RegisterCommand_duplicate_halts_witness :
  exists msg h',
    Handler.RegisterCommand Examples.ToLowerASCII Examples.pong Examples.h_ping
      = (Panic msg, h') /\
    Handler.cmdMap h' !! "ping" = Some Examples.ping /\
    (forall k c, Handler.cmdMap Examples.h_ping !! k = Some c ->
                 Handler.cmdMap h' !! k = Some c).
Proof.
  apply (RegisterCommand_duplicate_halts Examples.ToLowerASCII Examples.h_ping
           Examples.pong Examples.ping "Ping").
  - simpl. auto.
  - vm_compute. reflexivity.
Defined.

(** ** The invocation name *)

(** C5, at two inputs: the extraction of the invocation name panics.
    In attached mode with a prefix that ends with a space, the first
    token is shorter than the prefix and the slice expression on it
    is out of range; with a space asked after the prefix and a text
    without a token, the slice expression on the token list is. *)
Theorem extraction_faults :
  Examples.dispatch Examples.h_yo "yo ping"
    = (Panic "slice bounds out of range", []) /\
  Handler.tokenize (String GoString.dq " ") = [] /\
  Examples.dispatch Examples.h_quote (String GoString.dq " ")
    = (Panic "slice bounds out of range", []).
Proof. vm_compute. repeat split. Qed.

(** ** Splice *)

Lemma Splice_within_int_witness :
  (exists res h',
     Arguments.Splice Examples.abcde_slice 1 2 Examples.abcde_heap = (Ok res, h') /\
     Arguments.contents h' res = ["a"; "d"; "e"]) /\
  (exists res h',
     Arguments.Splice Examples.abcde_slice 4 2 Examples.abcde_heap = (Ok res, h') /\
     Arguments.contents h' res = ["a"; "b"; "c"; "d"]) /\
  (exists res h',
     Arguments.Splice Examples.abcde_slice 5 1 Examples.abcde_heap = (Ok res, h') /\
     Arguments.contents h' res = ["a"; "b"; "c"; "d"; "e"]).
Proof.
  assert (Hwf : Arguments.wf Examples.abcde_heap Examples.abcde_slice)
    by (split; simpl; lia).
  assert (Hmax : forall z, z <= 6 -> z <= GoInt.MaxInt)
    by (unfold GoInt.MaxInt, GoInt.intSize; lia).
  split; [|split].
  - apply (Splice_within_int Examples.abcde_heap Examples.abcde_slice 1 2 Hwf);
      [lia | lia | apply Hmax; lia].
  - apply (Splice_within_int Examples.abcde_heap Examples.abcde_slice 4 2 Hwf);
      [lia | lia | apply Hmax; lia].
  - apply (Splice_within_int Examples.abcde_heap Examples.abcde_slice 5 1 Hwf);
      [lia | lia | apply Hmax; lia].
Defined.

(** C6, at one input: [Splice] panics where the claim has the tokens
    before the start returned.  On the list of a, b, c, d, e with start
    1, the count [MaxInt - 1] is caught by the test of the sum against
    the length, and the call returns the token a alone; with the count
    [MaxInt] the sum wraps around to a negative number, the test
    fails, and the slice expression panics.  So the claim does not
    hold of every non-negative start and count. *)
Theorem Splice_count_overflow :
  Arguments.Splice_on Examples.abcde 1 (GoInt.MaxInt - 1)
    = Ok (["a"], Examples.abcde) /\
  Arguments.Splice_spec Examples.abcde 1 GoInt.MaxInt = ["a"] /\
  Arguments.Splice_on Examples.abcde 1 GoInt.MaxInt
    = Panic "slice bounds out of range" /\
  ~ (forall (tokens : list string) (i r : Z),
        GoInt.in_range i -> GoInt.in_range r -> 0 <= i -> 0 <= r ->
        exists original,
          Arguments.Splice_on tokens i r
            = Ok (Arguments.Splice_spec tokens i r, original)).
Proof.
  split; [vm_compute; reflexivity|].
  split; [vm_compute; reflexivity|].
  split; [vm_compute; reflexivity|].
  intros H.
  destruct (H Examples.abcde 1 GoInt.MaxInt) as [original Hrun].
  - unfold GoInt.in_range, GoInt.MinInt, GoInt.MaxInt, GoInt.intSize. lia.
  - unfold GoInt.in_range, GoInt.MinInt, GoInt.MaxInt, GoInt.intSize. lia.
  - lia.
  - unfold GoInt.MaxInt, GoInt.intSize. lia.
  - vm_compute in Hrun. discriminate Hrun.
Qed.

(** ** Coercions *)


(** ** Get *)

(** C8: [Get] never faults.  On every well-formed argument list and
    every index, negative or not, [Get] returns without a panic and
    leaves the store as it was; the value is the token at the index
    when the index is within the list and the empty string otherwise. *)
Theorem Get_never_faults
    (h : list (list string)) (al : Arguments.ArgumentList) (i : Z) :
  Arguments.wf h al ->
  Arguments.Get al i h =
    (Ok (if (0 <=? i) && (i <? Z.of_nat (length (Arguments.contents h al)))
         then nth (Z.to_nat i) (Arguments.contents h al) ""
         else ""), h).
Proof.
  intros Hwf. rewrite (wf_contents_length h al Hwf).
  apply Get_spec. exact Hwf.
Qed.

Lemma Get_never_faults_witness :
  Arguments.Get Examples.abcde_slice 3 Examples.abcde_heap
    = (Ok "d", Examples.abcde_heap) /\
  Arguments.Get Examples.abcde_slice (-1) Examples.abcde_heap
    = (Ok "", Examples.abcde_heap) /\
  Arguments.Get Examples.abcde_slice 5 Examples.abcde_heap
    = (Ok "", Examples.abcde_heap).
Proof.
  assert (Hwf : Arguments.wf Examples.abcde_heap Examples.abcde_slice)
    by (split; simpl; lia).
  split; [|split].
  - exact (Get_never_faults Examples.abcde_heap Examples.abcde_slice 3 Hwf).
  - exact (Get_never_faults Examples.abcde_heap Examples.abcde_slice (-1) Hwf).
  - exact (Get_never_faults Examples.abcde_heap Examples.abcde_slice 5 Hwf).
Defined.

(** ** Splice and the original list *)

(** C9: [Splice] writes into the array of the list it is called on.
    On the list a, b, c, d, e the call [Splice(1, 2)] returns a, d, e
    and leaves the original variable reading a, d, e, d, e. *)
Theorem Splice_overwrites_original :
  Arguments.Splice_on Examples.abcde 1 2
    = Ok (["a"; "d"; "e"], ["a"; "d"; "e"; "d"; "e"]).
Proof. vm_compute. reflexivity. Qed.

(** ** A registration that halts *)

(** C10: a registration that panics has changed the handler.  The
    command is in the instance list, and the names that come before
    the duplicate in the list of the command are keys of the registry
    that map to the command; the state after the panic is not the
    state before the call. *)
Theorem RegisterCommand_halt_not_atomic
    (ToLower : string -> string) (h h' : Handler.handler)
    (cmd : Handler.Command) (msg : string) :
  Handler.RegisterCommand ToLower cmd h = (Panic msg, h') ->
  Handler.cmdInstances h' = Handler.cmdInstances h ++ [cmd] /\
  (exists pre dup post,
      Handler.GetInvokes cmd = pre ++ dup :: post /\
      msg = "invoke already '" +:+ Handler.mapKey ToLower h dup
            +:+ "' already registered" /\
      is_Some (Handler.cmdMap h' !! Handler.mapKey ToLower h dup) /\
      (forall p, In p pre ->
                 Handler.cmdMap h' !! Handler.mapKey ToLower h p = Some cmd)) /\
  h' <> h.
Proof.
  unfold Handler.RegisterCommand, bind, modify. intros Hrun.
  set (h1 := Handler.set_cmdInstances (Handler.cmdInstances h ++ [cmd]) h) in Hrun.
  pose proof (register_invokes_frame _ _ _ _ _ _ Hrun) as (_ & Hinst & _ & _).
  assert (Hlist : Handler.cmdInstances h' = Handler.cmdInstances h ++ [cmd])
    by (rewrite Hinst; reflexivity).
  split; [exact Hlist|]. split.
  - apply register_invokes_halted in Hrun. exact Hrun.
  - intros ->. apply (f_equal (@length Handler.Command)) in Hlist.
    rewrite length_app in Hlist. simpl in Hlist. lia.
Qed.

Lemma RegisterCommand_halt_not_atomic_witness :
  let halted :=
    snd (Handler.RegisterCommand Examples.ToLowerASCII Examples.pong Examples.h_ping) in
  Handler.cmdInstances halted = [Examples.ping; Examples.pong] /\
  (exists pre dup post,
      ["pong"; "Ping"] = pre ++ dup :: post /\
      "invoke already 'ping' already registered"
        = "invoke already '" +:+ Handler.mapKey Examples.ToLowerASCII Examples.h_ping dup
          +:+ "' already registered" /\
      is_Some (Handler.cmdMap halted
                 !! Handler.mapKey Examples.ToLowerASCII Examples.h_ping dup) /\
      (forall p, In p pre ->
                 Handler.cmdMap halted
                   !! Handler.mapKey Examples.ToLowerASCII Examples.h_ping p
                 = Some Examples.pong)) /\
  halted <> Examples.h_ping.
Proof.
  apply (RegisterCommand_halt_not_atomic Examples.ToLowerASCII Examples.h_ping
           (snd (Handler.RegisterCommand Examples.ToLowerASCII Examples.pong
                   Examples.h_ping))
           Examples.pong "invoke already 'ping' already registered").
  vm_compute. reflexivity.
Defined.

(* ================================================================== *)
(** * Further properties of the code *)

(** ** IndexOf, Contains and Get *)

Section ArgumentListSearch.

Import Arguments.

Lemma IndexOf_loop_spec (v : string) (l : list string) :
  forall i,
    0 <= i ->
    let n := IndexOf_loop v l i in
    (n = -1 /\ ~ In v l) \/
    (i <= n < i + Z.of_nat (length l) /\
     l !! Z.to_nat (n - i) = Some v /\
     forall j, (j < Z.to_nat (n - i))%nat -> l !! j <> Some v).
Proof.
  induction l as [|s l IH]; intros i Hi; simpl.
  - left. split; [reflexivity | intros []].
  - destruct (String.eqb_spec v s) as [->|Hne].
    + right. rewrite Z.sub_diag. simpl. split; [lia|]. split; [reflexivity|].
      intros j Hj. lia.
    + destruct (IH (i + 1)) as [[Hn Hnot] | (Hrange & Hat & Hfirst)]; [lia | |].
      * left. split; [exact Hn|]. intros [Heq|Hin]; [congruence | contradiction].
      * right. split; [lia|].
        replace (Z.to_nat (IndexOf_loop v l (i + 1) - i))
          with (S (Z.to_nat (IndexOf_loop v l (i + 1) - (i + 1)))) by lia.
        split; [exact Hat|].
        intros [|j] Hj; simpl.
        -- intros Heq. inversion Heq. congruence.
        -- apply Hfirst. lia.
Qed.

(** X1: [IndexOf] never panics and writes nothing.  It returns -1
    exactly when no token of the list equals [v]; otherwise it returns
    the position of the first token that does. *)
Theorem IndexOf_first_occurrence
    (h : Heap) (al : ArgumentList) (v : string) :
  exists n,
    IndexOf al v h = (Ok n, h) /\
    ((n = -1 /\ ~ In v (contents h al)) \/
     (0 <= n < Z.of_nat (length (contents h al)) /\
      contents h al !! Z.to_nat n = Some v /\
      forall j, (j < Z.to_nat n)%nat -> contents h al !! j <> Some v)).
Proof.
  exists (IndexOf_loop v (contents h al) 0). split; [reflexivity|].
  pose proof (IndexOf_loop_spec v (contents h al) 0 (Z.le_refl 0)) as H.
  cbv zeta in H. rewrite Z.sub_0_r in H. exact H.
Qed.

(** X2: [Contains] returns true exactly when a token of the list
    equals [v]; it never panics and writes nothing. *)
Theorem Contains_iff_member
    (h : Heap) (al : ArgumentList) (v : string) :
  exists b,
    Contains al v h = (Ok b, h) /\
    (b = true <-> In v (contents h al)).
Proof.
  exists (IndexOf_loop v (contents h al) 0 >? -1). split; [reflexivity|].
  pose proof (IndexOf_loop_spec v (contents h al) 0 (Z.le_refl 0)) as H.
  cbv zeta in H. rewrite Z.sub_0_r in H.
  destruct H as [[Hn Hnot] | (Hrange & Hat & _)].
  - rewrite Hn. split; [discriminate | contradiction].
  - split; [intros _ | intros _; lia].
    apply list_elem_of_In. eapply list_elem_of_lookup_2. exact Hat.
Qed.

(** X3: what [IndexOf] finds, [Get] returns.  For a token [v] of a
    well-formed list, [IndexOf] returns an index within the list, and
    [Get] at that index returns [v]. *)
Theorem Get_at_IndexOf
    (h : Heap) (al : ArgumentList) (v : string) :
  wf h al -> In v (contents h al) ->
  exists n,
    IndexOf al v h = (Ok n, h) /\
    0 <= n < len al /\
    Get al n h = (Ok v, h).
Proof.
  intros Hwf Hin.
  exists (IndexOf_loop v (contents h al) 0). split; [reflexivity|].
  pose proof (IndexOf_loop_spec v (contents h al) 0 (Z.le_refl 0)) as Hcases.
  cbv zeta in Hcases. rewrite Z.sub_0_r in Hcases.
  set (n := IndexOf_loop v (contents h al) 0) in *.
  destruct Hcases as [[_ Hnot] | (Hrange & Hat & _)]; [contradiction|].
  rewrite (wf_contents_length h al Hwf) in Hrange.
  split; [exact Hrange|].
  rewrite (Get_spec h al n Hwf).
  replace ((0 <=? n) && (n <? len al)) with true
    by (symmetry; apply andb_true_intro; unfold len; lia).
  rewrite nth_lookup, Hat. reflexivity.
Qed.

End ArgumentListSearch.

Lemma Get_at_IndexOf_witness :
  exists n,
    Arguments.IndexOf Examples.abcde_slice "d" Examples.abcde_heap
      = (Ok n, Examples.abcde_heap) /\
    0 <= n < 5 /\
    Arguments.Get Examples.abcde_slice n Examples.abcde_heap
      = (Ok "d", Examples.abcde_heap).
Proof.
  apply (Get_at_IndexOf Examples.abcde_heap Examples.abcde_slice "d").
  - split; simpl; lia.
  - simpl. auto 10.
Defined.

(** ** Splice outside the cases of the specification *)

Section SpliceMore.

Import Arguments.

Lemma nil_of_length {A : Type} (l : list A) : length l = 0%nat -> l = [].
Proof. destruct l; [reflexivity | discriminate]. Qed.

(** [append] returns a slice that holds the tokens of its first
    argument followed by those of its second, written in place or in
    a new array. *)
Lemma append_contents (h : Heap) (a b : ArgumentList) :
  wf h a ->
  exists res h',
    append a b h = (Ok res, h') /\
    contents h' res = contents h a ++ contents h b.
Proof.
  intros [Hlc Hoc]. unfold append, bind, get, put, ret.
  destruct (s_len a + length (contents h b) <=? s_cap a)%nat eqn:Efit.
  - apply Nat.leb_le in Efit. eexists _, _. split; [reflexivity|].
    unfold contents at 1. simpl.
    destruct (Nat.eq_dec (length (array_of h a)) 0%nat) as [Hempty|Hsome].
    + assert (Hlen : s_len a = 0%nat) by lia.
      assert (Hsrc : contents h b = []) by (apply nil_of_length; lia).
      rewrite Hsrc, Hlen. simpl. unfold contents. rewrite Hlen. reflexivity.
    + rewrite array_of_insert by (reflexivity || lia).
      rewrite write_at_window by lia. reflexivity.
  - eexists _, _. split; [reflexivity|].
    unfold contents at 1, array_of. simpl.
    rewrite list_lookup_middle by reflexivity. simpl.
    rewrite drop_0. apply firstn_all.
Qed.

(** The third branch of [Splice], for a count of either sign. *)
Lemma Splice_middle (h : Heap) (al : ArgumentList) (i r : Z) :
  wf h al -> 0 <= i < len al -> 0 <= i + r < len al -> i + r <= GoInt.MaxInt ->
  exists res h',
    Splice al i r h = (Ok res, h') /\
    contents h' res
    = take (Z.to_nat i) (contents h al) ++ drop (Z.to_nat (i + r)) (contents h al).
Proof.
  intros Hwf Hi Hj Hmax. pose proof Hwf as [Hlc Hoc].
  unfold Splice, GoInt.add. rewrite wrap_in_range
    by (unfold GoInt.in_range, GoInt.MinInt, GoInt.MaxInt, GoInt.intSize in *; lia).
  replace (i >=? len al) with false by lia.
  replace (i + r >=? len al) with false by lia.
  unfold len, cap in *.
  unfold bind at 1. unfold slice_to.
  replace ((i <? 0) || (i >? cap al)) with false
    by (symmetry; apply orb_false_intro; unfold cap; lia).
  unfold ret at 1. unfold bind at 1. unfold slice_from.
  replace ((i + r <? 0) || (i + r >? len al)) with false
    by (symmetry; apply orb_false_intro; unfold len; lia).
  unfold ret at 1.
  set (front := mkSlice (s_arr al) (s_off al) (Z.to_nat i) (s_cap al)).
  set (back := mkSlice _ _ _ _).
  destruct (append_contents h front back) as (res & h' & Hrun & Hres).
  { split; simpl; [lia | exact Hoc]. }
  exists res, h'. split; [exact Hrun|].
  rewrite Hres. f_equal.
  - unfold contents at 1. simpl. rewrite contents_take by lia. reflexivity.
  - rewrite contents_drop. reflexivity.
Qed.

(** X4: [Splice] with a negative start panics, whatever the count,
    and writes nothing. *)
Theorem Splice_negative_start
    (h : Heap) (al : ArgumentList) (i r : Z) :
  i < 0 ->
  Splice al i r h = (Panic "slice bounds out of range", h).
Proof.
  intros Hi. unfold Splice. cbv zeta.
  assert (Hge : (i >=? len al) = false).
  { unfold len. rewrite Z.geb_leb. apply Z.leb_gt. lia. }
  rewrite Hge.
  assert (Hto : slice_to al i h = (Panic "slice bounds out of range", h)).
  { unfold slice_to. replace (i <? 0) with true by lia. reflexivity. }
  destruct (GoInt.add i r >=? len al); [exact Hto|].
  unfold bind at 1. rewrite Hto. reflexivity.
Qed.

(** X5: [Splice] with a negative count.  With a start inside the list
    and a count [r < 0], the call panics when [i + r] is negative;
    otherwise it returns the tokens before [i] followed by the tokens
    from [i + r] on, a list longer than the one it was called on by
    [- r] tokens. *)
Theorem Splice_negative_count
    (h : Heap) (al : ArgumentList) (i r : Z) :
  wf h al -> 0 <= i < len al -> i <= GoInt.MaxInt ->
  r < 0 -> GoInt.MinInt <= r ->
  if i + r <? 0
  then Splice al i r h = (Panic "slice bounds out of range", h)
  else exists res h',
      Splice al i r h = (Ok res, h') /\
      contents h' res
      = take (Z.to_nat i) (contents h al) ++ drop (Z.to_nat (i + r)) (contents h al) /\
      Z.of_nat (length (contents h' res)) = len al - r.
Proof.
  intros Hwf Hi Hmax Hr Hmin.
  destruct (i + r <? 0) eqn:Eneg.
  - unfold Splice, GoInt.add. rewrite wrap_in_range
      by (unfold GoInt.in_range, GoInt.MinInt, GoInt.MaxInt, GoInt.intSize in *; lia).
    replace (i >=? len al) with false by lia.
    replace (i + r >=? len al) with false by lia.
    unfold bind at 1. unfold slice_to.
    replace ((i <? 0) || (i >? cap al)) with false
      by (symmetry; apply orb_false_intro; destruct Hwf; unfold len, cap in *; lia).
    unfold ret at 1. unfold bind at 1. unfold slice_from.
    replace (i + r <? 0) with true by lia. reflexivity.
  - destruct (Splice_middle h al i r Hwf Hi) as (res & h' & Hrun & Hres); [lia | lia |].
    exists res, h'. split; [exact Hrun|]. split; [exact Hres|].
    rewrite Hres, length_app, length_take, length_drop.
    rewrite (wf_contents_length h al Hwf). unfold len in *. lia.
Qed.

(** The third branch of [Splice] with a count that is not negative:
    the tokens from [i + r] on are written over those from [i] on, in
    the array of the receiver. *)
Lemma Splice_in_place (h : Heap) (al : ArgumentList) (i r : Z) :
  wf h al -> 0 <= i -> 0 <= r -> i + r < len al -> i + r <= GoInt.MaxInt ->
  Splice al i r h
  = (Ok (mkSlice (s_arr al) (s_off al)
           (Z.to_nat i + (s_len al - Z.to_nat (i + r))) (s_cap al)),
     <[ s_arr al := write_at (array_of h al) (s_off al + Z.to_nat i)
                      (drop (Z.to_nat (i + r)) (contents h al)) ]> h).
Proof.
  intros Hwf Hi Hr Hin Hsum.
  pose proof (wf_contents_length h al Hwf) as Hlen.
  destruct Hwf as [Hlc Hoc].
  unfold Splice, GoInt.add. rewrite wrap_in_range
    by (unfold GoInt.in_range, GoInt.MinInt, GoInt.MaxInt, GoInt.intSize in *; lia).
  unfold len in *.
  replace (i >=? Z.of_nat (s_len al)) with false by lia.
  replace (i + r >=? Z.of_nat (s_len al)) with false by lia.
  assert (Hto : (i >? cap al) = false) by (unfold cap; lia).
  assert (Hneg : (i <? 0) = false) by lia.
  set (j := Z.to_nat (i + r)).
  unfold bind at 1. unfold slice_to. rewrite Hneg, Hto. simpl.
  unfold bind at 1. unfold slice_from.
  replace ((i + r <? 0) || (i + r >? len al)) with false
    by (symmetry; apply orb_false_intro; unfold len; lia).
  simpl. fold j.
  unfold append, bind, get, put, ret. simpl.
  set (back := mkSlice (s_arr al) (s_off al + j) (s_len al - j) (s_cap al - j)).
  assert (Hsrc : contents h back = drop j (contents h al))
    by (rewrite contents_drop; reflexivity).
  assert (Hn : length (contents h back) = (s_len al - j)%nat)
    by (rewrite Hsrc, length_drop, Hlen; reflexivity).
  replace (Z.to_nat i + length (contents h back) <=? s_cap al)%nat with true
    by (symmetry; apply Nat.leb_le; lia).
  change (array_of h (mkSlice (s_arr al) (s_off al) (Z.to_nat i) (s_cap al)))
    with (array_of h al).
  rewrite Hn, Hsrc. reflexivity.
Qed.

(** X6: what [Splice] does to the list it is called on.  For a
    non-negative start and count whose sum fits in an [int], the
    result is a header over the array of the receiver (nothing is
    allocated), and the receiver afterwards reads: its tokens before
    [i], its tokens from [i + r] on, and its last [r] tokens, when
    [i + r] is inside the list; and what it read before otherwise. *)
Theorem Splice_receiver_after
    (h : Heap) (al : ArgumentList) (i r : Z) :
  wf h al -> 0 <= i -> 0 <= r -> i + r <= GoInt.MaxInt ->
  exists res h',
    Splice al i r h = (Ok res, h') /\
    s_arr res = s_arr al /\ s_off res = s_off al /\ length h' = length h /\
    contents h' al
    = if i + r <? len al
      then take (Z.to_nat i) (contents h al)
           ++ drop (Z.to_nat (i + r)) (contents h al)
           ++ drop (s_len al - Z.to_nat r) (contents h al)
      else contents h al.
Proof.
  intros Hwf Hi Hr Hsum.
  pose proof (wf_contents_length h al Hwf) as Hlen.
  destruct (i + r <? len al) eqn:Ein.
  - rewrite (Splice_in_place h al i r Hwf Hi Hr) by lia.
    destruct Hwf as [Hlc Hoc]. unfold len in *.
    eexists _, _. split; [reflexivity|]. simpl.
    split; [reflexivity|]. split; [reflexivity|].
    split; [apply length_insert|].
    set (j := Z.to_nat (i + r)).
    unfold contents at 1.
    rewrite array_of_insert by (reflexivity || lia).
    unfold write_at.
    rewrite drop_app_le by (rewrite length_take; lia).
    rewrite <- take_drop_commute, <- contents_take by lia.
    rewrite app_assoc, take_app_ge
      by (rewrite length_app, length_take, !length_drop, Hlen; lia).
    rewrite <- app_assoc. f_equal. f_equal.
    rewrite length_app, length_take, !length_drop, Hlen.
    replace (s_len al - (Z.to_nat i `min` s_len al + (s_len al - j)))%nat
      with (Z.to_nat r) by lia.
    replace (s_off al + Z.to_nat i + (s_len al - j))%nat
      with (s_off al + (s_len al - Z.to_nat r))%nat by lia.
    unfold contents.
    rewrite skipn_firstn_comm, drop_drop.
    f_equal. lia.
  - destruct Hwf as [Hlc Hoc]. unfold Splice, GoInt.add. rewrite wrap_in_range
      by (unfold GoInt.in_range, GoInt.MinInt, GoInt.MaxInt, GoInt.intSize in *; lia).
    destruct (i >=? len al) eqn:E1.
    { exists al, h. repeat split; reflexivity. }
    replace (i + r >=? len al) with true by lia.
    unfold slice_to.
    replace ((i <? 0) || (i >? cap al)) with false
      by (symmetry; apply orb_false_intro; unfold len, cap in *; lia).
    eexists _, h. repeat split; reflexivity.
Qed.

End SpliceMore.

Lemma Splice_negative_start_witness :
  Arguments.Splice Examples.abcde_slice (-1) 2 Examples.abcde_heap
  = (Panic "slice bounds out of range", Examples.abcde_heap).
Proof.
  apply (Splice_negative_start Examples.abcde_heap Examples.abcde_slice (-1) 2).
  lia.
Defined.

Lemma Splice_negative_count_witness :
  exists res h',
    Arguments.Splice Examples.abcde_slice 2 (-1) Examples.abcde_heap = (Ok res, h') /\
    Arguments.contents h' res = ["a"; "b"; "b"; "c"; "d"; "e"] /\
    Z.of_nat (length (Arguments.contents h' res)) = 5 - -1.
Proof.
  apply (Splice_negative_count Examples.abcde_heap Examples.abcde_slice 2 (-1)).
  - split; simpl; lia.
  - unfold Arguments.len. simpl. lia.
  - unfold GoInt.MaxInt, GoInt.intSize. lia.
  - lia.
  - unfold GoInt.MinInt, GoInt.intSize. lia.
Defined.

Lemma Splice_receiver_after_witness :
  exists res h',
    Arguments.Splice Examples.abcde_slice 1 2 Examples.abcde_heap = (Ok res, h') /\
    Arguments.s_arr res = 0%nat /\ Arguments.s_off res = 0%nat /\
    length h' = 1%nat /\
    Arguments.contents h' Examples.abcde_slice = ["a"; "d"; "e"; "d"; "e"].
Proof.
  apply (Splice_receiver_after Examples.abcde_heap Examples.abcde_slice 1 2).
  - split; simpl; lia.
  - lia.
  - lia.
  - unfold GoInt.MaxInt, GoInt.intSize. lia.
Defined.

(** ** The registry: registration and lookup *)

Section RegistryMore.

Import Handler.

Variable ToLower : string -> string.

(** The key of a name under a given configuration. *)
Let key (cfg : Config) (invoke : string) : string :=
  if InvokeToLower cfg then ToLower invoke else invoke.

Lemma register_invokes_returns (cmd : Command) (invokes : list string) :
  forall h h',
    register_invokes ToLower cmd invokes h = (Ok tt, h') ->
    NoDup (map (key (config h)) invokes) /\
    (forall k, In k (map (key (config h)) invokes) -> cmdMap h !! k = None) /\
    (forall k, In k (map (key (config h)) invokes) -> cmdMap h' !! k = Some cmd) /\
    (forall k, ~ In k (map (key (config h)) invokes) -> cmdMap h' !! k = cmdMap h !! k).
Proof.
  induction invokes as [|first rest IH]; intros h h' Hrun.
  - inversion Hrun. subst. simpl. repeat split; try (intros k []); auto.
    constructor.
  - simpl in Hrun. unfold bind, get in Hrun. revert Hrun. fold (key (config h) first).
    destruct (cmdMap h !! key (config h) first) as [old|] eqn:Ek; intros Hrun;
      [discriminate Hrun|].
    unfold put in Hrun.
    destruct (IH _ _ Hrun) as (Hnd & Hfresh & Hin & Hout). simpl in *.
    assert (Hnotin : ~ In (key (config h) first) (map (key (config h)) rest)).
    { intros Hk. apply Hfresh in Hk. rewrite lookup_insert_eq in Hk. discriminate. }
    split; [apply NoDup_cons; split; [rewrite list_elem_of_In|]; assumption|].
    split; [|split].
    + intros k [<-|Hk]; [exact Ek|].
      specialize (Hfresh k Hk).
      destruct (decide (key (config h) first = k)) as [<-|Hne]; [contradiction|].
      rewrite lookup_insert_ne in Hfresh by exact Hne. exact Hfresh.
    + intros k [<-|Hk]; [|apply Hin; exact Hk].
      rewrite (Hout _ Hnotin). apply lookup_insert_eq.
    + intros k Hk. rewrite Hout by tauto.
      apply lookup_insert_ne. tauto.
Qed.

Lemma register_invokes_fresh (cmd : Command) (invokes : list string) :
  forall h,
    NoDup (map (key (config h)) invokes) ->
    (forall k, In k (map (key (config h)) invokes) -> cmdMap h !! k = None) ->
    exists h', register_invokes ToLower cmd invokes h = (Ok tt, h').
Proof.
  induction invokes as [|first rest IH]; intros h Hnd Hfresh.
  - exists h. reflexivity.
  - simpl. unfold bind, get. fold (key (config h) first).
    rewrite (Hfresh (key (config h) first)) by (left; reflexivity).
    unfold put. apply NoDup_cons in Hnd as [Hnotin Hnd'].
    rewrite list_elem_of_In in Hnotin.
    apply IH; simpl.
    + exact Hnd'.
    + intros k Hk. rewrite lookup_insert_ne.
      * apply Hfresh. right. exact Hk.
      * intros <-. contradiction.
Qed.

Lemma register_invokes_origin (cmd : Command) (invokes : list string) :
  forall h h' o,
    register_invokes ToLower cmd invokes h = (o, h') ->
    forall k c, cmdMap h' !! k = Some c -> c = cmd \/ cmdMap h !! k = Some c.
Proof.
  induction invokes as [|first rest IH]; intros h h' o Hrun k c Hk.
  - inversion Hrun. subst. right. exact Hk.
  - simpl in Hrun. unfold bind, get in Hrun. revert Hrun.
    fold (key (config h) first).
    destruct (cmdMap h !! key (config h) first) as [old|] eqn:Ek; intros Hrun.
    + inversion Hrun. subst. right. exact Hk.
    + unfold put in Hrun.
      destruct (IH _ _ _ Hrun k c Hk) as [Hc|Hc]; [left; exact Hc|].
      simpl in Hc.
      destruct (decide (key (config h) first = k)) as [<-|Hne].
      * rewrite lookup_insert_eq in Hc. inversion Hc. left. reflexivity.
      * rewrite lookup_insert_ne in Hc by exact Hne. right. exact Hc.
Qed.

(** X7: [RegisterCommand] returns without a panic exactly when the
    keys of the names of the command (the names, folded to lower case
    when the configuration says so) are pairwise distinct and none of
    them is in the registry. *)
Theorem RegisterCommand_returns_iff (h : handler) (cmd : Command) :
  let keys := map (mapKey ToLower h) (GetInvokes cmd) in
  (exists h', RegisterCommand ToLower cmd h = (Ok tt, h'))
  <-> NoDup keys /\ (forall k, In k keys -> GetCommandMap h !! k = None).
Proof.
  intros keys. unfold RegisterCommand, bind, modify, GetCommandMap.
  set (h1 := set_cmdInstances (cmdInstances h ++ [cmd]) h).
  split.
  - intros [h' Hrun].
    destruct (register_invokes_returns _ _ _ _ Hrun) as (Hnd & Hfresh & _).
    split; [exact Hnd | exact Hfresh].
  - intros [Hnd Hfresh].
    apply (register_invokes_fresh cmd (GetInvokes cmd) h1); assumption.
Qed.

(** X8: a registration that returns, and the lookups after it.  The
    command is the last of the instances; [GetCommand] finds it under
    each of its names, and under every spelling with the same key;
    every other name is looked up as before. *)
Theorem GetCommand_after_RegisterCommand
    (h h' : handler) (cmd : Command) :
  RegisterCommand ToLower cmd h = (Ok tt, h') ->
  GetCommandInstances h' = GetCommandInstances h ++ [cmd] /\
  (forall invoke, In invoke (GetInvokes cmd) ->
     GetCommand ToLower h' invoke = Some cmd) /\
  (forall name invoke,
     In invoke (GetInvokes cmd) ->
     mapKey ToLower h name = mapKey ToLower h invoke ->
     GetCommand ToLower h' name = Some cmd) /\
  (forall name,
     ~ In (mapKey ToLower h name) (map (mapKey ToLower h) (GetInvokes cmd)) ->
     GetCommand ToLower h' name = GetCommand ToLower h name).
Proof.
  unfold RegisterCommand, bind, modify. intros Hrun.
  set (h1 := set_cmdInstances (cmdInstances h ++ [cmd]) h) in Hrun.
  destruct (register_invokes_frame _ _ _ _ _ _ Hrun) as (Hcfg & Hinst & _ & _).
  destruct (register_invokes_returns _ _ _ _ Hrun) as (_ & _ & Hin & Hout).
  assert (Hsame : forall name,
            GetCommand ToLower h' name = cmdMap h' !! mapKey ToLower h name).
  { intros name. unfold GetCommand, mapKey. rewrite Hcfg. reflexivity. }
  split; [unfold GetCommandInstances; rewrite Hinst; reflexivity|].
  split; [|split].
  - intros invoke Hi. rewrite Hsame. apply Hin.
    apply (in_map (mapKey ToLower h)) in Hi. exact Hi.
  - intros name invoke Hi Heq. rewrite Hsame, Heq. apply Hin.
    apply (in_map (mapKey ToLower h)) in Hi. exact Hi.
  - intros name Hno. rewrite Hsame. rewrite Hout by exact Hno. reflexivity.
Qed.

(** X9: the registry stays sound.  It is sound in the handler
    [NewHandler] returns, and [RegisterCommand], also when it panics,
    and [RegisterMiddleware] keep it sound: a command [GetCommand]
    returns is one of the instances. *)
Theorem registry_sound_kept (defaultHelpCommand : Command) :
  (forall cfg, registry_sound (snd (NewHandler ToLower defaultHelpCommand cfg))) /\
  (forall h cmd,
      registry_sound h -> registry_sound (snd (RegisterCommand ToLower cmd h))) /\
  (forall h mw,
      registry_sound h -> registry_sound (snd (RegisterMiddleware mw h))) /\
  (forall h name c,
      registry_sound h -> GetCommand ToLower h name = Some c ->
      In c (GetCommandInstances h)).
Proof.
  assert (Hreg : forall h cmd,
             registry_sound h -> registry_sound (snd (RegisterCommand ToLower cmd h))).
  { intros h cmd Hs. unfold RegisterCommand, bind, modify.
    set (h1 := set_cmdInstances (cmdInstances h ++ [cmd]) h).
    destruct (register_invokes ToLower cmd (GetInvokes cmd) h1) as [o h'] eqn:Hrun.
    destruct (register_invokes_frame _ _ _ _ _ _ Hrun) as (_ & Hinst & _ & _).
    simpl. intros k c Hk. rewrite Hinst. simpl. apply in_or_app.
    destruct (register_invokes_origin _ _ _ _ _ Hrun k c Hk) as [->|Hold].
    - right. left. reflexivity.
    - left. apply (Hs k c). exact Hold. }
  split; [|split; [exact Hreg|split]].
  - intros cfg. unfold NewHandler.
    assert (Hempty : registry_sound (mkHandler cfg ∅ [] [] ∅)).
    { intros k c Hk. simpl in Hk. rewrite lookup_empty in Hk. discriminate. }
    destruct (UseDefaultHelpCommand cfg); [apply Hreg; exact Hempty | exact Hempty].
  - intros h mw Hs. exact Hs.
  - intros h name c Hs Hget. apply (Hs _ c Hget).
Qed.

End RegistryMore.

Lemma GetCommand_after_RegisterCommand_witness :
  Handler.GetCommand Examples.ToLowerASCII Examples.h_ping "PiNG" = Some Examples.ping.
Proof.
  destruct (GetCommand_after_RegisterCommand Examples.ToLowerASCII
              Examples.h_empty Examples.h_ping Examples.ping)
    as (_ & _ & Hspelling & _).
  - vm_compute. reflexivity.
  - apply (Hspelling "PiNG" "ping"); [simpl; auto | vm_compute; reflexivity].
Defined.

Lemma registry_sound_kept_witness :
  Handler.registry_sound
    (snd (Handler.RegisterCommand Examples.ToLowerASCII Examples.pong Examples.h_ping)).
Proof.
  destruct (registry_sound_kept Examples.ToLowerASCII Examples.ping)
    as (Hnew & Hreg & _ & _).
  apply Hreg. unfold Examples.h_ping. apply Hreg.
  exact (Hnew Examples.bang).
Defined.

(** ** A layer run, in full *)

Section LayerRun.

Import Handler.

Variables (cmd : Command) (ctx : Context) (layer : Z).

Lemma reports_app (a b : Trace) : reports (a ++ b) = reports a ++ reports b.
Proof. unfold reports. apply flat_map_app. Qed.

Lemma executions_app (a b : Trace) : executions (a ++ b) = executions a ++ executions b.
Proof. unfold executions. apply flat_map_app. Qed.

Lemma handled_app (a b : Trace) : handled (a ++ b) = handled a ++ handled b.
Proof. unfold handled. apply flat_map_app. Qed.

Lemma tidy_app (a b : Trace) : reports a = [] -> tidy b -> tidy (a ++ b).
Proof.
  intros Ha [Hb | (pre & c & typ & err & -> & Hpre)].
  - left. rewrite reports_app, Ha, Hb. reflexivity.
  - right. exists (a ++ pre), c, typ, err. rewrite app_assoc. split; [reflexivity|].
    rewrite reports_app, Ha, Hpre. reflexivity.
Qed.

Lemma filter_subscribed_cons (mw : Middleware) (mws : list Middleware) :
  filter (fun m => subscribed layer m = true) (mw :: mws)
  = if subscribed layer mw
    then mw :: filter (fun m => subscribed layer m = true) mws
    else filter (fun m => subscribed layer m = true) mws.
Proof. rewrite filter_cons. destruct (subscribed layer mw); reflexivity. Qed.

(** The loop of [executeMiddlewares] on any list of middlewares. *)
Lemma loop_run (mws : list Middleware) :
  forall t,
  exists b ev,
    executeMiddlewares_loop mws cmd ctx layer t = (Ok b, t ++ ev) /\
    (b = true <-> Forall (continues cmd ctx layer) mws) /\
    (exists rest,
        filter (fun m => subscribed layer m = true) mws = handled ev ++ rest /\
        (b = true -> rest = [])) /\
    executions ev = [] /\
    (b = true -> reports ev = []) /\
    tidy ev /\
    (forall c typ err, In (EvOnError c typ err) ev -> c = ctx /\ typ = ErrTypMiddleware).
Proof.
  induction mws as [|mw mws IH]; intros t.
  - exists true, []. rewrite app_nil_r. simpl.
    split; [reflexivity|]. split; [split; [constructor | reflexivity]|].
    split; [exists []; split; reflexivity|].
    split; [reflexivity|]. split; [reflexivity|]. split; [left; reflexivity|].
    intros c typ err [].
  - simpl executeMiddlewares_loop.
    rewrite subscribed_test, filter_subscribed_cons.
    destruct (subscribed layer mw) eqn:Es; cbn [negb].
    + unfold bind at 1. unfold emit at 1, modify.
      destruct (Handle mw cmd ctx layer) as [next [err|]] eqn:Eh.
      * exists false, [EvHandle mw cmd ctx layer; EvOnError ctx ErrTypMiddleware err].
        split; [unfold bind, emit, modify, ret; cbv beta iota;
                rewrite <- app_assoc; reflexivity|].
        split; [split; [discriminate|]|].
        { intros Hall. inversion Hall as [|? ? Hmw _]. subst.
          rewrite (Hmw Es) in Eh. discriminate. }
        split; [exists (filter (fun m => subscribed layer m = true) mws);
                split; [reflexivity | discriminate]|].
        split; [reflexivity|]. split; [discriminate|].
        split.
        { right. exists [EvHandle mw cmd ctx layer], ctx, ErrTypMiddleware, err.
          split; reflexivity. }
        intros c typ e [Hin|[Hin|[]]]; [discriminate | inversion Hin; auto].
      * destruct next; cbn [negb].
        -- destruct (IH (t ++ [EvHandle mw cmd ctx layer]))
             as (b & ev & Hrun & Hb & (rest & Hrest & Hnil) & Hexe & Hrep & Htidy & Herr).
           exists b, (EvHandle mw cmd ctx layer :: ev).
           split; [rewrite Hrun, <- app_assoc; reflexivity|].
           split.
           { rewrite Hb. split.
             - intros Hall. constructor; [intros _; exact Eh | exact Hall].
             - intros Hall. inversion Hall. assumption. }
           split; [exists rest; split; [simpl; rewrite Hrest; reflexivity | exact Hnil]|].
           split; [exact Hexe|]. split; [exact Hrep|].
           split; [apply (tidy_app [EvHandle mw cmd ctx layer]); [reflexivity | exact Htidy]|].
           intros c typ e [Hin|Hin]; [discriminate | eapply Herr; exact Hin].
        -- exists false, [EvHandle mw cmd ctx layer].
           split; [reflexivity|].
           split; [split; [discriminate|]|].
           { intros Hall. inversion Hall as [|? ? Hmw _]. subst.
             rewrite (Hmw Es) in Eh. discriminate. }
           split; [exists (filter (fun m => subscribed layer m = true) mws);
                   split; [reflexivity | discriminate]|].
           split; [reflexivity|]. split; [discriminate|].
           split; [left; reflexivity|].
           intros c typ e [Hin|[]]. discriminate.
    + destruct (IH t)
        as (b & ev & Hrun & Hb & Hrest & Hexe & Hrep & Htidy & Herr).
      exists b, ev. split; [exact Hrun|].
      split.
      { rewrite Hb. split.
        - intros Hall. constructor; [intros Hsub; congruence | exact Hall].
        - intros Hall. inversion Hall. assumption. }
      split; [exact Hrest|]. split; [exact Hexe|]. split; [exact Hrep|].
      split; [exact Htidy | exact Herr].
Qed.


End LayerRun.

(** ** The run of a command *)

Section CommandRun.

Import Handler.

Variables LayerBeforeCommand LayerAfterCommand : Z.
Variable ObjectMapKeyHandler : string.

(** X11: the run of a command whose layer before lets it through.
    The command is executed once, after the subscribed middlewares of
    that layer.  An error of the command is reported, with the kind
    [ErrTypCommandExec], and nothing follows: no middleware of the
    layer after, no deletion.  A stop in the layer after leaves the
    message undeleted.  When both layers and the command let the run
    through, the message is deleted if the configuration says so,
    after everything else, a failure of the deletion being reported
    with the kind [ErrTypDeleteCommandMessage]. *)
Theorem runCommand_paths
    (h : handler) (cmd : Command) (ctx : Context) (t : Trace) :
  let ctx' := set_objectMap (Some {[ ObjectMapKeyHandler := ObjHandler ]}) ctx in
  let run := runCommand LayerBeforeCommand LayerAfterCommand ObjectMapKeyHandler h cmd ctx in
  let before := visits cmd ctx' LayerBeforeCommand (middlewares h) in
  let msg := message ctx in
  Forall (continues cmd ctx' LayerBeforeCommand) (middlewares h) ->
  (forall err,
      Exec cmd ctx' = Some err ->
      run t = (Ok tt, t ++ before
                        ++ [EvExec cmd ctx'; EvOnError ctx' ErrTypCommandExec err])) /\
  (forall pre mw post next e,
      Exec cmd ctx' = None ->
      middlewares h = pre ++ mw :: post ->
      Forall (continues cmd ctx' LayerAfterCommand) pre ->
      subscribed LayerAfterCommand mw = true ->
      Handle mw cmd ctx' LayerAfterCommand = (next, e) ->
      e <> None \/ next = false ->
      run t = (Ok tt, t ++ before ++ EvExec cmd ctx'
                        :: visits cmd ctx' LayerAfterCommand pre
                        ++ EvHandle mw cmd ctx' LayerAfterCommand
                        :: match e with
                           | Some err => [EvOnError ctx' ErrTypMiddleware err]
                           | None => []
                           end)) /\
  (Exec cmd ctx' = None ->
   Forall (continues cmd ctx' LayerAfterCommand) (middlewares h) ->
   run t = (Ok tt, t ++ before ++ EvExec cmd ctx'
                     :: visits cmd ctx' LayerAfterCommand (middlewares h)
                     ++ if DeleteMessageAfter (config h)
                        then EvChannelMessageDelete (ChannelID msg) (ID msg)
                             :: match ChannelMessageDelete (session ctx)
                                        (ChannelID msg) (ID msg) with
                                | Some err =>
                                    [EvOnError ctx' ErrTypDeleteCommandMessage err]
                                | None => []
                                end
                        else [])).
Proof.
  intros ctx' run before msg Hbefore.
  assert (Hstart : forall k : unit -> M Trace unit,
             bind (executeMiddlewares h cmd ctx' LayerBeforeCommand)
                  (fun ok => if negb ok then ret tt else k tt) t
             = k tt (t ++ before)).
  { intros k. unfold bind at 1, executeMiddlewares.
    rewrite (loop_completes cmd ctx' LayerBeforeCommand _ Hbefore). reflexivity. }
  split; [|split].
  - intros err Hexec. unfold run, runCommand. fold ctx'.
    rewrite (Hstart (fun _ => _)).
    unfold bind, emit, modify. rewrite Hexec.
    rewrite <- !app_assoc. reflexivity.
  - intros pre mw post next e Hexec Hmws Hpre Hsub Hmw Hstop.
    unfold run, runCommand. fold ctx'.
    rewrite (Hstart (fun _ => _)).
    unfold bind at 1. unfold emit at 1, modify. rewrite Hexec.
    unfold bind at 1, executeMiddlewares. rewrite Hmws.
    rewrite (loop_stops cmd ctx' LayerAfterCommand pre post mw next e
               Hpre Hsub Hmw Hstop).
    cbn [negb]. unfold ret. rewrite <- !app_assoc. reflexivity.
  - intros Hexec Hafter.
    unfold run, runCommand. fold ctx'.
    rewrite (Hstart (fun _ => _)).
    unfold bind at 1. unfold emit at 1, modify. rewrite Hexec.
    unfold bind at 1, executeMiddlewares.
    rewrite (loop_completes cmd ctx' LayerAfterCommand _ Hafter).
    cbn [negb]. fold msg.
    destruct (DeleteMessageAfter (config h)).
    + unfold bind, emit, modify.
      change (session ctx') with (session ctx). change (message ctx') with (message ctx).
      fold msg.
      destruct (ChannelMessageDelete (session ctx) (ChannelID msg) (ID msg));
        unfold ret; rewrite <- !app_assoc; reflexivity.
    + unfold ret. rewrite app_nil_r, <- !app_assoc. reflexivity.
Qed.

End CommandRun.

(** ** The dispatch as a whole *)

Section DispatchShape.

Import Handler.

Variable ToLower : string -> string.
Variables LayerBeforeCommand LayerAfterCommand : Z.
Variables ErrCommandNotFound ErrCommandNotExecutableInDMs : error.
Variable ObjectMapKeyHandler : string.

Lemma in_order_nil : in_order [].
Proof. split; [left; reflexivity | simpl; lia]. Qed.

Lemma in_order_report (c : Context) (typ : ErrorType) (err : error) :
  in_order [EvOnError c typ err].
Proof.
  split; [|simpl; lia]. right. exists [], c, typ, err. split; reflexivity.
Qed.

Lemma in_order_app (a b : Trace) :
  reports a = [] -> executions a = [] -> in_order b -> in_order (a ++ b).
Proof.
  intros Hr He [Ht Hx]. split; [apply tidy_app; assumption|].
  rewrite executions_app, He. exact Hx.
Qed.

Lemma runCommand_shape (h : handler) (cmd : Command) (ctx : Context) (t : Trace) :
  exists ev,
    runCommand LayerBeforeCommand LayerAfterCommand ObjectMapKeyHandler h cmd ctx t
    = (Ok tt, t ++ ev) /\
    in_order ev.
Proof.
  unfold runCommand.
  set (ctx' := set_objectMap (Some {[ ObjectMapKeyHandler := ObjHandler ]}) ctx).
  destruct (loop_run cmd ctx' LayerBeforeCommand (middlewares h) t)
    as (b1 & ev1 & Hrun1 & _ & _ & Hexe1 & Hrep1 & Htidy1 & _).
  unfold bind at 1, executeMiddlewares. rewrite Hrun1.
  destruct b1; cbn [negb].
  2:{ exists ev1. split; [reflexivity|]. split; [exact Htidy1|].
      rewrite Hexe1. simpl. lia. }
  specialize (Hrep1 eq_refl).
  unfold bind at 1. unfold emit at 1, modify.
  destruct (Exec cmd ctx') as [err|].
  { exists (ev1 ++ [EvExec cmd ctx'; EvOnError ctx' ErrTypCommandExec err]).
    split; [unfold emit, modify; rewrite <- !app_assoc; reflexivity|].
    apply in_order_app; [assumption | assumption |].
    split; [|simpl; lia].
    right. exists [EvExec cmd ctx'], ctx', ErrTypCommandExec, err. split; reflexivity. }
  destruct (loop_run cmd ctx' LayerAfterCommand (middlewares h)
              ((t ++ ev1) ++ [EvExec cmd ctx']))
    as (b2 & ev2 & Hrun2 & _ & _ & Hexe2 & Hrep2 & Htidy2 & _).
  unfold bind at 1. rewrite Hrun2.
  assert (Hmid : forall tl : Trace,
             reports tl = [] \/
             (exists c typ err, tl = [EvOnError c typ err]) \/
             (exists a b c typ err,
                 tl = [EvChannelMessageDelete a b; EvOnError c typ err]) ->
             executions tl = [] ->
             reports ev2 = [] ->
             in_order (ev1 ++ [EvExec cmd ctx'] ++ ev2 ++ tl)).
  { intros tl Htl Hxtl Hr2.
    apply in_order_app; [assumption | assumption |].
    split.
    - apply (tidy_app [EvExec cmd ctx']); [reflexivity|].
      apply tidy_app; [exact Hr2|].
      destruct Htl as [Hq | [(c & typ & err & ->) | (a & b & c & typ & err & ->)]].
      + left. exact Hq.
      + right. exists [], c, typ, err. split; reflexivity.
      + right. exists [EvChannelMessageDelete a b], c, typ, err. split; reflexivity.
    - rewrite !executions_app, Hexe2, Hxtl. simpl. lia. }
  destruct b2; cbn [negb].
  2:{ exists (ev1 ++ [EvExec cmd ctx'] ++ ev2).
      split; [unfold ret; rewrite <- !app_assoc; reflexivity|].
      apply in_order_app; [assumption | assumption |].
      split.
      - apply (tidy_app [EvExec cmd ctx']); [reflexivity | exact Htidy2].
      - rewrite executions_app, Hexe2. simpl. lia. }
  specialize (Hrep2 eq_refl).
  destruct (DeleteMessageAfter (config h)).
  - unfold bind, emit, modify.
    destruct (ChannelMessageDelete (session ctx') (ChannelID (message ctx'))
                (ID (message ctx'))) as [err|].
    + eexists (ev1 ++ [EvExec cmd ctx'] ++ ev2 ++ [_; _]).
      split; [rewrite <- !app_assoc; reflexivity|].
      apply Hmid; [right; right; eauto 10 | reflexivity | exact Hrep2].
    + eexists (ev1 ++ [EvExec cmd ctx'] ++ ev2 ++ [_]).
      split; [unfold ret; rewrite <- !app_assoc; reflexivity|].
      apply Hmid; [left; reflexivity | reflexivity | exact Hrep2].
  - exists (ev1 ++ [EvExec cmd ctx'] ++ ev2 ++ []).
    split; [unfold ret; rewrite app_nil_r, <- !app_assoc; reflexivity|].
    apply Hmid; [left; reflexivity | reflexivity | exact Hrep2].
Qed.

Lemma parseAndRun_shape (h : handler) (ctx : Context) (usedPrefix : string) (t : Trace) :
  exists o ev,
    parseAndRun ToLower LayerBeforeCommand LayerAfterCommand
      ErrCommandNotFound ErrCommandNotExecutableInDMs ObjectMapKeyHandler
      h ctx usedPrefix t
    = (o, t ++ ev) /\
    in_order ev /\
    (forall m, o = Panic m ->
       ev = [] /\
       extractInvoke (config h) usedPrefix (tokenize (Content (message ctx))) = Panic m).
Proof.
  unfold parseAndRun, bind at 1, lift.
  destruct (extractInvoke (config h) usedPrefix (tokenize (Content (message ctx))))
    as [[invoke args]|m] eqn:Hx.
  2:{ exists (Panic m), []. rewrite app_nil_r. split; [reflexivity|].
      split; [apply in_order_nil|]. intros m' Hm. inversion Hm. subst. auto. }
  cbv beta iota zeta delta [fst snd].
  destruct (GetCommand ToLower h invoke) as [cmd|].
  2:{ eexists (Ok tt), [_]. split; [reflexivity|].
      split; [apply in_order_report | discriminate]. }
  destruct (isDM (set_args args ctx) && negb (IsExecutableInDMChannels cmd)).
  { eexists (Ok tt), [_]. split; [reflexivity|].
    split; [apply in_order_report | discriminate]. }
  destruct (runCommand_shape h cmd (set_args args ctx) t) as (ev & Hrun & Hord).
  exists (Ok tt), ev. split; [exact Hrun|]. split; [exact Hord | discriminate].
Qed.

Lemma resolveAndRun_shape (h : handler) (ctx : Context) (usedPrefix : string) (t : Trace) :
  exists o ev,
    resolveAndRun ToLower LayerBeforeCommand LayerAfterCommand
      ErrCommandNotFound ErrCommandNotExecutableInDMs ObjectMapKeyHandler
      h ctx usedPrefix t
    = (o, t ++ ev) /\
    in_order ev /\
    (forall m, o = Panic m ->
       ev = [] /\
       extractInvoke (config h) usedPrefix (tokenize (Content (message ctx))) = Panic m).
Proof.
  unfold resolveAndRun.
  assert (Hstop : exists o ev,
             @ret Trace unit tt t = (o, t ++ ev) /\ in_order ev /\
             (forall m, o = Panic m ->
                ev = [] /\
                extractInvoke (config h) usedPrefix (tokenize (Content (message ctx)))
                = Panic m)).
  { exists (Ok tt), []. rewrite app_nil_r. split; [reflexivity|].
    split; [apply in_order_nil | discriminate]. }
  assert (Hreport : forall c typ err, exists o ev,
             emit (EvOnError c typ err) t = (o, t ++ ev) /\ in_order ev /\
             (forall m, o = Panic m ->
                ev = [] /\
                extractInvoke (config h) usedPrefix (tokenize (Content (message ctx)))
                = Panic m)).
  { intros c typ err. eexists (Ok tt), [_]. split; [reflexivity|].
    split; [apply in_order_report | discriminate]. }
  destruct (match StateChannel (session ctx) (ChannelID (message ctx)) with
            | Got c => Got c
            | Failed _ => SessionChannel (session ctx) (ChannelID (message ctx))
            end) as [c|err]; [|apply Hreport].
  destruct (negb (AllowDM (config h)) && isDM (set_isDM _ (set_channel (Some c) ctx)));
    [exact Hstop|].
  destruct (negb (isDM (set_isDM _ (set_channel (Some c) ctx)))).
  - destruct (match StateGuild (session ctx) (GuildID (message ctx)) with
              | Got g => Got g
              | Failed _ => SessionGuild (session ctx) (GuildID (message ctx))
              end) as [g|err]; [|apply Hreport].
    match goal with
    | |- context [parseAndRun _ _ _ _ _ _ h ?c usedPrefix t] =>
        exact (parseAndRun_shape h c usedPrefix t)
    end.
  - match goal with
    | |- context [parseAndRun _ _ _ _ _ _ h ?c usedPrefix t] =>
        exact (parseAndRun_shape h c usedPrefix t)
    end.
Qed.

(** X12: the events of a dispatch are in order, and a panic is one
    of the extraction.  Whatever the message, [messageHandler] only
    adds events to the trace; it reports at most one error, and then
    as the last thing it does; it executes at most one command, once;
    it calls the prefix provider at most once.  When it panics, it has
    reported and executed nothing, and the panic is that of the
    extraction of the invocation name from the tokens, with a used
    prefix the text starts with. *)
Theorem messageHandler_in_order
    (h : handler) (s : Session) (msg : Message) (edit : bool) (t : Trace) :
  exists o ev,
    messageHandler ToLower LayerBeforeCommand LayerAfterCommand
      ErrCommandNotFound ErrCommandNotExecutableInDMs ObjectMapKeyHandler
      h s msg edit t
    = (o, t ++ ev) /\
    in_order ev /\
    (length (getter_calls ev) <= 1)%nat /\
    (forall m, o = Panic m ->
       reports ev = [] /\ executions ev = [] /\
       exists usedPrefix,
         usedPrefix <> "" /\
         GoString.HasPrefix (Content msg) usedPrefix = true /\
         extractInvoke (config h) usedPrefix (tokenize (Content msg)) = Panic m).
Proof.
  destruct (classic_admitted h s msg) as [Hadm|Hno].
  2:{ rewrite (messageHandler_filtered ToLower LayerBeforeCommand LayerAfterCommand
                 ErrCommandNotFound ErrCommandNotExecutableInDMs ObjectMapKeyHandler
                 h s msg edit Hno).
      exists (Ok tt), []. rewrite app_nil_r. split; [reflexivity|].
      split; [apply in_order_nil|]. split; [simpl; lia | discriminate]. }
  rewrite (messageHandler_admitted ToLower LayerBeforeCommand LayerAfterCommand
             ErrCommandNotFound ErrCommandNotExecutableInDMs ObjectMapKeyHandler
             h s msg edit Hadm).
  cbv zeta.
  set (ctx0 := mkContext s msg (Member msg) edit None None false [] None).
  (* the dispatch that goes on with a prefix the text starts with *)
  assert (Hgo : forall p t0,
             GoString.HasPrefix (Content msg) p = true ->
             exists o ev,
               (if String.eqb p "" then ret tt
                else resolveAndRun ToLower LayerBeforeCommand LayerAfterCommand
                       ErrCommandNotFound ErrCommandNotExecutableInDMs
                       ObjectMapKeyHandler h ctx0 p) t0
               = (o, t0 ++ ev) /\
               in_order ev /\ getter_calls ev = [] /\
               (forall m, o = Panic m ->
                  ev = [] /\
                  exists usedPrefix,
                    usedPrefix <> "" /\
                    GoString.HasPrefix (Content msg) usedPrefix = true /\
                    extractInvoke (config h) usedPrefix (tokenize (Content msg))
                    = Panic m)).
  { intros p t0 Hp. destruct (String.eqb_spec p "") as [->|Hne].
    - exists (Ok tt), []. rewrite app_nil_r. split; [reflexivity|].
      split; [apply in_order_nil|]. split; [reflexivity | discriminate].
    - destruct (resolveAndRun_shape h ctx0 p t0) as (o & ev & Hrun & Hord & Hpanic).
      destruct (quiet_resolveAndRun ToLower LayerBeforeCommand LayerAfterCommand
                  ErrCommandNotFound ErrCommandNotExecutableInDMs ObjectMapKeyHandler
                  h ctx0 p t0) as (o' & ev' & Hrun' & Hquiet).
      rewrite Hrun in Hrun'. inversion Hrun' as [[Ho Hev]].
      apply app_inv_head in Hev. subst ev'.
      exists o, ev. split; [exact Hrun|]. split; [exact Hord|].
      split; [exact Hquiet|].
      intros m Hm. destruct (Hpanic m Hm) as [Hnil Hx].
      split; [exact Hnil|]. exists p. auto. }
  destruct (GoString.HasPrefix (Content msg) (GeneralPrefix (config h))) eqn:Hglobal.
  - destruct (Hgo (GeneralPrefix (config h)) t Hglobal)
      as (o & ev & Hrun & Hord & Hquiet & Hpanic).
    exists o, ev. split; [exact Hrun|]. split; [exact Hord|].
    split; [rewrite Hquiet; simpl; lia|].
    intros m Hm. destruct (Hpanic m Hm) as [-> Hx]. auto.
  - unfold bind at 1. unfold emit at 1, modify.
    destruct (GuildPrefixGetter (config h) (GuildID msg)) as [guildPrefix [err|]].
    + eexists (Ok tt), [_; _]. split; [unfold emit, modify; rewrite <- app_assoc; reflexivity|].
      split; [|split; [simpl; lia | discriminate]].
      split; [|simpl; lia].
      right. eexists [_], _, _, _. split; reflexivity.
    + assert (Hcons : forall (o : Outcome unit) ev,
                 in_order ev -> getter_calls ev = [] ->
                 (forall m, o = Panic m ->
                    ev = [] /\
                    exists usedPrefix,
                      usedPrefix <> "" /\
                      GoString.HasPrefix (Content msg) usedPrefix = true /\
                      extractInvoke (config h) usedPrefix (tokenize (Content msg))
                      = Panic m) ->
                 in_order (EvGuildPrefixGetter (GuildID msg) :: ev) /\
                 (length (getter_calls (EvGuildPrefixGetter (GuildID msg) :: ev)) <= 1)%nat /\
                 (forall m, o = Panic m ->
                    reports (EvGuildPrefixGetter (GuildID msg) :: ev) = [] /\
                    executions (EvGuildPrefixGetter (GuildID msg) :: ev) = [] /\
                    exists usedPrefix,
                      usedPrefix <> "" /\
                      GoString.HasPrefix (Content msg) usedPrefix = true /\
                      extractInvoke (config h) usedPrefix (tokenize (Content msg))
                      = Panic m)).
      { intros o ev Hord Hquiet Hpanic. split; [|split].
        - apply (in_order_app [EvGuildPrefixGetter (GuildID msg)]);
            [reflexivity | reflexivity | exact Hord].
        - simpl. rewrite Hquiet. simpl. lia.
        - intros m Hm. destruct (Hpanic m Hm) as [-> Hx]. auto. }
      destruct (negb (String.eqb guildPrefix "")
                && GoString.HasPrefix (Content msg) guildPrefix) eqn:Eg.
      * apply andb_true_iff in Eg as [_ Hp].
        destruct (Hgo guildPrefix (t ++ [EvGuildPrefixGetter (GuildID msg)]) Hp)
          as (o & ev & Hrun & Hord & Hquiet & Hpanic).
        exists o, (EvGuildPrefixGetter (GuildID msg) :: ev).
        split; [rewrite Hrun, <- app_assoc; reflexivity|].
        apply Hcons; assumption.
      * exists (Ok tt), [EvGuildPrefixGetter (GuildID msg)].
        split; [reflexivity|].
        apply (Hcons (Ok tt) []); [apply in_order_nil | reflexivity | discriminate].
Qed.

(** X13: with prefixes of plain bytes the dispatch does not panic.
    When the global prefix and every prefix the provider returns hold
    neither white space nor a double quote, [messageHandler] returns
    on every message, the callbacks, the middlewares and the command
    being taken to return. *)
Theorem messageHandler_returns
    (h : handler) (s : Session) (msg : Message) (edit : bool) (t : Trace) :
  all_plain (GeneralPrefix (config h)) = true ->
  (forall guildID guildPrefix,
      GuildPrefixGetter (config h) guildID = (guildPrefix, None) ->
      all_plain guildPrefix = true) ->
  fst (messageHandler ToLower LayerBeforeCommand LayerAfterCommand
         ErrCommandNotFound ErrCommandNotExecutableInDMs ObjectMapKeyHandler
         h s msg edit t)
  = Ok tt.
Proof.
  intros Hglobal Hguild.
  assert (Hsafe : forall (ctx : Context) p t0,
             message ctx = msg -> all_plain p = true -> p <> "" ->
             GoString.HasPrefix (Content msg) p = true ->
             fst (resolveAndRun ToLower LayerBeforeCommand LayerAfterCommand
                    ErrCommandNotFound ErrCommandNotExecutableInDMs
                    ObjectMapKeyHandler h ctx p t0) = Ok tt).
  { intros ctx p t0 Hmsg Hp Hne Hpre.
    destruct (resolveAndRun_shape h ctx p t0) as (o & ev & Hrun & _ & Hpanic).
    rewrite Hrun. simpl. destruct o as [[]|m]; [reflexivity|].
    destruct (Hpanic m eq_refl) as [_ Hx]. rewrite Hmsg in Hx.
    destruct (extractInvoke_plain_prefix (config h) p (Content msg) Hp Hne Hpre)
      as (invoke & args & Hok).
    rewrite Hok in Hx. discriminate. }
  destruct (classic_admitted h s msg) as [Hadm|Hno].
  2:{ rewrite (messageHandler_filtered ToLower LayerBeforeCommand LayerAfterCommand
                 ErrCommandNotFound ErrCommandNotExecutableInDMs ObjectMapKeyHandler
                 h s msg edit Hno). reflexivity. }
  rewrite (messageHandler_admitted ToLower LayerBeforeCommand LayerAfterCommand
             ErrCommandNotFound ErrCommandNotExecutableInDMs ObjectMapKeyHandler
             h s msg edit Hadm).
  cbv zeta.
  destruct (GoString.HasPrefix (Content msg) (GeneralPrefix (config h))) eqn:Hpre.
  - destruct (String.eqb_spec (GeneralPrefix (config h)) "") as [Heq|Hne];
      [reflexivity|].
    apply Hsafe; [reflexivity | assumption | assumption | assumption].
  - unfold bind at 1. unfold emit at 1, modify.
    destruct (GuildPrefixGetter (config h) (GuildID msg)) as [guildPrefix [err|]] eqn:Eg;
      [reflexivity|].
    destruct (negb (String.eqb guildPrefix "")
              && GoString.HasPrefix (Content msg) guildPrefix) eqn:Euse;
      [|reflexivity].
    apply andb_true_iff in Euse as [Hne Hp].
    destruct (String.eqb_spec guildPrefix "") as [Heq|Hne']; [discriminate Hne|].
    apply Hsafe; [reflexivity | eapply Hguild; exact Eg | assumption | assumption].
Qed.

(** X14: an empty global prefix turns the handler off.  The empty
    string is a prefix of every text and is never a used prefix, so
    with it no message is dispatched and the guild prefix provider is
    never asked. *)
Theorem empty_global_prefix_disables
    (h : handler) (s : Session) (msg : Message) (edit : bool) (t : Trace) :
  GeneralPrefix (config h) = "" ->
  messageHandler ToLower LayerBeforeCommand LayerAfterCommand
    ErrCommandNotFound ErrCommandNotExecutableInDMs ObjectMapKeyHandler
    h s msg edit t
  = (Ok tt, t).
Proof.
  intros Hempty.
  destruct (classic_admitted h s msg) as [Hadm|Hno].
  - rewrite (messageHandler_admitted ToLower LayerBeforeCommand LayerAfterCommand
               ErrCommandNotFound ErrCommandNotExecutableInDMs ObjectMapKeyHandler
               h s msg edit Hadm).
    cbv zeta. rewrite Hempty.
    assert (Hany : GoString.HasPrefix (Content msg) "" = true)
      by (destruct (Content msg); reflexivity).
    rewrite Hany. reflexivity.
  - rewrite (messageHandler_filtered ToLower LayerBeforeCommand LayerAfterCommand
               ErrCommandNotFound ErrCommandNotExecutableInDMs ObjectMapKeyHandler
               h s msg edit Hno). reflexivity.
Qed.

End DispatchShape.

(** ** What a command and its middlewares are called with *)

Section DispatchCalls.

Import Handler.

Variable ToLower : string -> string.
Variables LayerBeforeCommand LayerAfterCommand : Z.
Variables ErrCommandNotFound ErrCommandNotExecutableInDMs : error.
Variable ObjectMapKeyHandler : string.

Lemma emits_ret {A : Type} (P : Event -> Prop) (a : A) : emits P (ret a).
Proof. intros t. exists (Ok a), []. rewrite app_nil_r. split; [reflexivity | constructor]. Qed.

Lemma emits_lift {A : Type} (P : Event -> Prop) (o : Outcome A) : emits P (lift o).
Proof. intros t. exists o, []. rewrite app_nil_r. split; [reflexivity | constructor]. Qed.

Lemma emits_emit (P : Event -> Prop) (e : Event) : P e -> emits P (emit e).
Proof.
  intros He t. exists (Ok tt), [e]. split; [reflexivity|].
  constructor; [exact He | constructor].
Qed.

Lemma emits_bind {A B : Type} (P : Event -> Prop) (c : M Trace A) (k : A -> M Trace B) :
  emits P c -> (forall a, emits P (k a)) -> emits P (bind c k).
Proof.
  intros Hc Hk t. destruct (Hc t) as (o & ev & Hrun & Hev).
  unfold bind. rewrite Hrun. destruct o as [a|msg].
  - destruct (Hk a (t ++ ev)) as (o' & ev' & Hrun' & Hev').
    exists o', (ev ++ ev'). rewrite Hrun', app_assoc. split; [reflexivity|].
    apply Forall_app. split; assumption.
  - exists (Panic msg), ev. split; [reflexivity | exact Hev].
Qed.

Ltac emits_step :=
  first
    [ apply emits_ret
    | apply emits_lift
    | apply emits_emit; first [exact I | assumption]
    | apply emits_bind; [|intros ?]
    | match goal with
      | |- emits _ (if ?b then _ else _) => destruct b
      | |- emits _ (match ?x with _ => _ end) => destruct x
      end ].

Lemma emits_loop (P : Command -> Context -> Prop)
    (mws : list Middleware) (cmd : Command) (ctx : Context) (layer : Z) :
  P cmd ctx -> emits (called_with P) (executeMiddlewares_loop mws cmd ctx layer).
Proof.
  intros HP. induction mws as [|mw mws IH]; simpl; [apply emits_ret|].
  repeat emits_step; exact IH.
Qed.

Lemma emits_runCommand (P : Command -> Context -> Prop)
    (h : handler) (cmd : Command) (ctx : Context) :
  P cmd (set_objectMap (Some {[ ObjectMapKeyHandler := ObjHandler ]}) ctx) ->
  emits (called_with P)
    (runCommand LayerBeforeCommand LayerAfterCommand ObjectMapKeyHandler h cmd ctx).
Proof.
  intros HP. unfold runCommand, executeMiddlewares.
  repeat first [ apply emits_loop; exact HP | emits_step ].
Qed.

Lemma emits_parseAndRun (h : handler) (ctx : Context) (usedPrefix : string) :
  channel ctx <> None ->
  (isDM ctx = false -> guild ctx <> None) ->
  (isDM ctx = true -> AllowDM (config h) = true) ->
  emits (called_with
           (dispatched ToLower h (session ctx) (message ctx) (isEdit ctx) usedPrefix))
    (parseAndRun ToLower LayerBeforeCommand LayerAfterCommand
       ErrCommandNotFound ErrCommandNotExecutableInDMs ObjectMapKeyHandler
       h ctx usedPrefix).
Proof.
  intros Hchannel Hguild Hdm. unfold parseAndRun.
  destruct (extractInvoke (config h) usedPrefix (tokenize (Content (message ctx))))
    as [[invoke params]|m] eqn:Hx.
  2:{ intros t. exists (Panic m), []. rewrite app_nil_r.
      split; [reflexivity | constructor]. }
  unfold bind at 1, lift. cbv beta iota zeta delta [fst snd].
  destruct (GetCommand ToLower h invoke) as [cmd|] eqn:Hcmd;
    [|apply emits_emit; exact I].
  destruct (isDM (set_args params ctx) && negb (IsExecutableInDMChannels cmd)) eqn:Ecan;
    [apply emits_emit; exact I|].
  apply emits_runCommand.
  split.
  - unfold ready. simpl.
    split; [reflexivity|]. split; [reflexivity|]. split; [reflexivity|].
    split; [exact Hchannel|]. split; [exact Hguild|].
    split; [|discriminate].
    intros Hisdm. split; [exact (Hdm Hisdm)|].
    simpl in Ecan. rewrite Hisdm in Ecan.
    destruct (IsExecutableInDMChannels cmd); [reflexivity | discriminate Ecan].
  - exists invoke. simpl. split; [exact Hx | exact Hcmd].
Qed.

Lemma emits_resolveAndRun (h : handler) (ctx : Context) (usedPrefix : string) :
  emits (called_with
           (dispatched ToLower h (session ctx) (message ctx) (isEdit ctx) usedPrefix))
    (resolveAndRun ToLower LayerBeforeCommand LayerAfterCommand
       ErrCommandNotFound ErrCommandNotExecutableInDMs ObjectMapKeyHandler
       h ctx usedPrefix).
Proof.
  unfold resolveAndRun. cbv zeta.
  destruct (match StateChannel (session ctx) (ChannelID (message ctx)) with
            | Got c => Got c
            | Failed _ => SessionChannel (session ctx) (ChannelID (message ctx))
            end) as [c|err]; [|apply emits_emit; exact I].
  set (dm := match Type_ c with
             | ChannelTypeDM | ChannelTypeGroupDM => true
             | _ => false
             end).
  change (isDM (set_isDM dm (set_channel (Some c) ctx))) with dm.
  destruct (AllowDM (config h)) eqn:Hallow; cbn [negb andb].
  - destruct dm eqn:Hdm; cbn [negb].
    + apply (emits_parseAndRun h (set_isDM true (set_channel (Some c) ctx)) usedPrefix);
        simpl; [discriminate | discriminate | intros _; exact Hallow].
    + destruct (match StateGuild (session ctx) (GuildID (message ctx)) with
                | Got g => Got g
                | Failed _ => SessionGuild (session ctx) (GuildID (message ctx))
                end) as [g|err]; [|apply emits_emit; exact I].
      apply (emits_parseAndRun h
               (set_guild (Some g) (set_isDM false (set_channel (Some c) ctx))) usedPrefix);
        simpl; [discriminate | discriminate | discriminate].
  - destruct dm eqn:Hdm; cbn [negb]; [apply emits_ret|].
    destruct (match StateGuild (session ctx) (GuildID (message ctx)) with
              | Got g => Got g
              | Failed _ => SessionGuild (session ctx) (GuildID (message ctx))
              end) as [g|err]; [|apply emits_emit; exact I].
    apply (emits_parseAndRun h
             (set_guild (Some g) (set_isDM false (set_channel (Some c) ctx))) usedPrefix);
      simpl; [discriminate | discriminate | discriminate].
Qed.

Lemma messageHandler_calls
    (h : handler) (s : Session) (msg : Message) (edit : bool) (t : Trace) :
  exists o ev,
    messageHandler ToLower LayerBeforeCommand LayerAfterCommand
      ErrCommandNotFound ErrCommandNotExecutableInDMs ObjectMapKeyHandler
      h s msg edit t
    = (o, t ++ ev) /\
    exists usedPrefix,
      GoString.HasPrefix (Content msg) usedPrefix = true /\
      Forall (called_with (dispatched ToLower h s msg edit usedPrefix)) ev.
Proof.
  assert (Hnone : forall t0 : Trace, exists o ev,
             @ret Trace unit tt t0 = (o, t0 ++ ev) /\
             exists usedPrefix,
               GoString.HasPrefix (Content msg) usedPrefix = true /\
               Forall (called_with (dispatched ToLower h s msg edit usedPrefix)) ev).
  { intros t0. exists (Ok tt), []. rewrite app_nil_r. split; [reflexivity|].
    exists "". split; [destruct (Content msg); reflexivity | constructor]. }
  destruct (classic_admitted h s msg) as [Hadm|Hno].
  2:{ rewrite (messageHandler_filtered ToLower LayerBeforeCommand LayerAfterCommand
                 ErrCommandNotFound ErrCommandNotExecutableInDMs ObjectMapKeyHandler
                 h s msg edit Hno). apply Hnone. }
  rewrite (messageHandler_admitted ToLower LayerBeforeCommand LayerAfterCommand
             ErrCommandNotFound ErrCommandNotExecutableInDMs ObjectMapKeyHandler
             h s msg edit Hadm).
  cbv zeta.
  set (ctx0 := mkContext s msg (Member msg) edit None None false [] None).
  assert (Hgo : forall p t0,
             GoString.HasPrefix (Content msg) p = true ->
             exists o ev,
               (if String.eqb p "" then ret tt
                else resolveAndRun ToLower LayerBeforeCommand LayerAfterCommand
                       ErrCommandNotFound ErrCommandNotExecutableInDMs
                       ObjectMapKeyHandler h ctx0 p) t0
               = (o, t0 ++ ev) /\
               exists usedPrefix,
                 GoString.HasPrefix (Content msg) usedPrefix = true /\
                 Forall (called_with (dispatched ToLower h s msg edit usedPrefix)) ev).
  { intros p t0 Hp. destruct (String.eqb p ""); [apply Hnone|].
    destruct (emits_resolveAndRun h ctx0 p t0) as (o & ev & Hrun & Hev).
    exists o, ev. split; [exact Hrun|]. exists p. split; [exact Hp | exact Hev]. }
  destruct (GoString.HasPrefix (Content msg) (GeneralPrefix (config h))) eqn:Hglobal.
  - apply Hgo. exact Hglobal.
  - unfold bind at 1. unfold emit at 1, modify.
    destruct (GuildPrefixGetter (config h) (GuildID msg)) as [guildPrefix [err|]].
    + eexists (Ok tt), [_; _].
      split; [unfold emit, modify; rewrite <- app_assoc; reflexivity|].
      exists "". split; [destruct (Content msg); reflexivity|].
      constructor; [exact I|]. constructor; [exact I | constructor].
    + assert (Hrest : exists o ev,
                 (if negb (String.eqb guildPrefix "")
                     && GoString.HasPrefix (Content msg) guildPrefix
                  then (if String.eqb guildPrefix "" then ret tt
                        else resolveAndRun ToLower LayerBeforeCommand LayerAfterCommand
                               ErrCommandNotFound ErrCommandNotExecutableInDMs
                               ObjectMapKeyHandler h ctx0 guildPrefix)
                  else (if String.eqb "" "" then ret tt
                        else resolveAndRun ToLower LayerBeforeCommand LayerAfterCommand
                               ErrCommandNotFound ErrCommandNotExecutableInDMs
                               ObjectMapKeyHandler h ctx0 ""))
                   (t ++ [EvGuildPrefixGetter (GuildID msg)])
                 = (o, (t ++ [EvGuildPrefixGetter (GuildID msg)]) ++ ev) /\
                 exists usedPrefix,
                   GoString.HasPrefix (Content msg) usedPrefix = true /\
                   Forall (called_with (dispatched ToLower h s msg edit usedPrefix)) ev).
      { destruct (negb (String.eqb guildPrefix "")
                  && GoString.HasPrefix (Content msg) guildPrefix) eqn:Eg.
        - apply andb_true_iff in Eg as [_ Hp]. apply Hgo. exact Hp.
        - apply Hnone. }
      destruct Hrest as (o & ev & Hrun & p & Hp & Hev).
      exists o, (EvGuildPrefixGetter (GuildID msg) :: ev).
      split; [rewrite Hrun, <- app_assoc; reflexivity|].
      exists p. split; [exact Hp|]. constructor; [exact I | exact Hev].
Qed.


(** X16: the handlers that [RegisterHandlers] adds.  A handler for
    new messages is added always, and after it one for edited
    messages exactly when [ExecuteOnEdit] is set.  Both dispatch with
    the edit flag unset: whatever the session, the message and the
    kind of the event, no middleware and no command is called with a
    context that says the message was edited. *)
Theorem RegisterHandlers_edit_flag (h : handler) :
  map fst (RegisterHandlers ToLower LayerBeforeCommand LayerAfterCommand
             ErrCommandNotFound ErrCommandNotExecutableInDMs ObjectMapKeyHandler h)
  = MessageCreate :: (if ExecuteOnEdit (config h) then [MessageUpdate] else []) /\
  forall kind handle,
    In (kind, handle)
       (RegisterHandlers ToLower LayerBeforeCommand LayerAfterCommand
          ErrCommandNotFound ErrCommandNotExecutableInDMs ObjectMapKeyHandler h) ->
    forall s msg t,
    exists o ev,
      handle s msg t = (o, t ++ ev) /\
      Forall (called_with (fun _ ctx => isEdit ctx = false)) ev.
Proof.
  split; [unfold RegisterHandlers; destruct (ExecuteOnEdit (config h)); reflexivity|].
  intros kind handle Hin s msg t.
  assert (Hrun : handle = fun s msg =>
            messageHandler ToLower LayerBeforeCommand LayerAfterCommand
              ErrCommandNotFound ErrCommandNotExecutableInDMs ObjectMapKeyHandler
              h s msg false).
  { unfold RegisterHandlers in Hin.
    destruct Hin as [Heq | Hin]; [inversion Heq; reflexivity|].
    destruct (ExecuteOnEdit (config h)); [|destruct Hin].
    destruct Hin as [Heq | []]. inversion Heq. reflexivity. }
  subst handle.
  destruct (messageHandler_calls h s msg false t) as (o & ev & Hrun & p & _ & Hev).
  exists o, ev. split; [exact Hrun|].
  eapply Forall_impl; [exact Hev|].
  intros [] He; try exact I; destruct He as [(_ & _ & Hedit & _) _]; exact Hedit.
Qed.

(** *** The cause of a report *)






End DispatchCalls.

(** ** The tokens of a text, and the text of some tokens *)

Section TokenizerMore.

Import Handler.

Lemma ReplaceQuote_clean (k : string) :
  GoString.ContainsQuote (GoString.ReplaceQuote k) = false.
Proof.
  induction k as [|c k IH]; [reflexivity|].
  simpl. destruct (Ascii.eqb c GoString.dq) eqn:Ec; [exact IH|].
  simpl. rewrite Ec. exact IH.
Qed.

Lemma ReplaceQuote_id (k : string) :
  GoString.ContainsQuote k = false -> GoString.ReplaceQuote k = k.
Proof.
  induction k as [|c k IH]; [reflexivity|].
  simpl. destruct (Ascii.eqb c GoString.dq); [discriminate|].
  intros Hk. rewrite (IH Hk). reflexivity.
Qed.

Lemma plain_no_quote (k : string) :
  all_plain k = true -> GoString.ContainsQuote k = false.
Proof.
  induction k as [|c k IH]; [reflexivity|].
  simpl. intros Hk. apply andb_true_iff in Hk as [Hc Hk].
  unfold plain in Hc. apply andb_true_iff in Hc as [_ Hq].
  destruct (Ascii.eqb c GoString.dq); [discriminate Hq | exact (IH Hk)].
Qed.

Lemma str_app_nil_r (a : string) : a +:+ "" = a.
Proof. induction a as [|c a IH]; [reflexivity|]. rewrite str_app_cons, IH. reflexivity. Qed.

Lemma piece_ended (rest : string) : ended rest -> piece rest = None.
Proof. intros [-> | [r ->]]; reflexivity. Qed.

Lemma span_plain_ended (rest : string) : ended rest -> span_plain rest = ("", rest).
Proof. intros [-> | [r ->]]; reflexivity. Qed.

Lemma upto_quote_app (w rest : string) :
  GoString.ContainsQuote w = false ->
  upto_quote (w +:+ String GoString.dq rest) = Some (w, rest).
Proof.
  induction w as [|c w IH]; intros Hw; [reflexivity|].
  simpl in Hw. rewrite str_app_cons. simpl upto_quote.
  destruct (Ascii.eqb c GoString.dq); [discriminate|].
  rewrite (IH Hw). reflexivity.
Qed.

Lemma writes_nonempty (w r : string) : writes w r -> exists c r', r = String c r'.
Proof.
  intros [(_ & Hne & ->) | (_ & ->)]; [|eauto].
  destruct w as [|c w']; [contradiction | eauto].
Qed.

Lemma ReplaceQuote_closing (w : string) :
  GoString.ContainsQuote w = false ->
  GoString.ReplaceQuote (w +:+ String GoString.dq "") = w.
Proof.
  induction w as [|c w IH]; [reflexivity|].
  simpl GoString.ContainsQuote. rewrite str_app_cons. simpl GoString.ReplaceQuote.
  destruct (Ascii.eqb c GoString.dq); [discriminate|].
  intros Hw. rewrite (IH Hw). reflexivity.
Qed.

Lemma writes_value (w r : string) : writes w r -> GoString.ReplaceQuote r = w.
Proof.
  intros [(Hp & _ & ->) | (Hq & ->)].
  - apply ReplaceQuote_id, plain_no_quote, Hp.
  - change (GoString.ReplaceQuote (String GoString.dq (w +:+ String GoString.dq "")))
      with (GoString.ReplaceQuote (w +:+ String GoString.dq "")).
    apply ReplaceQuote_closing, Hq.
Qed.

Lemma piece_written (w r rest : string) :
  writes w r -> ended rest -> piece (r +:+ rest) = Some (r, rest).
Proof.
  intros [(Hp & Hne & ->) | (Hq & ->)] Hrest.
  - destruct w as [|c w']; [contradiction|].
    pose proof Hp as Hp'. simpl in Hp'. apply andb_true_iff in Hp' as [Hc _].
    rewrite str_app_cons. unfold piece. rewrite Hc.
    rewrite <- str_app_cons, (span_plain_app _ _ Hp), (span_plain_ended _ Hrest).
    simpl fst. simpl snd. rewrite str_app_nil_r. reflexivity.
  - rewrite str_app_cons, str_app_assoc, str_app_cons.
    change ("" +:+ rest) with rest.
    unfold piece.
    change (plain GoString.dq) with false.
    change (Ascii.eqb GoString.dq GoString.dq) with true.
    cbv iota. rewrite (upto_quote_app _ _ Hq). reflexivity.
Qed.

Lemma scan_written (w r rest : string) (n : nat) :
  writes w r -> ended rest ->
  (String.length (r +:+ rest) <= n)%nat ->
  scan n (r +:+ rest) = w :: scan (String.length rest) rest.
Proof.
  intros Hw Hrest Hn.
  destruct (writes_nonempty _ _ Hw) as (c & r' & Hr).
  pose proof (piece_written _ _ _ Hw Hrest) as Hpiece.
  pose proof (str_app_length r rest) as Hlen.
  destruct n as [|n];
    [rewrite Hr, str_app_cons in Hn; simpl in Hn; lia|].
  assert (Hshape : r +:+ rest = String c (r' +:+ rest))
    by (rewrite Hr; apply str_app_cons).
  assert (Hscan : scan (S n) (r +:+ rest)
                  = match piece (r +:+ rest) with
                    | Some _ =>
                        let (m, r0) := pieces (String.length (r +:+ rest)) (r +:+ rest) in
                        GoString.ReplaceQuote m :: scan n r0
                    | None => scan n (r' +:+ rest)
                    end)
    by (rewrite Hshape; reflexivity).
  rewrite Hscan, Hpiece.
  assert (Hpieces : pieces (String.length (r +:+ rest)) (r +:+ rest) = (r, rest)).
  { rewrite Hshape at 1.
    change (String.length (String c (r' +:+ rest)))
      with (S (String.length (r' +:+ rest))).
    rewrite pieces_S, Hpiece.
    assert (Hstop : pieces (String.length (r' +:+ rest)) rest = ("", rest)).
    { destruct (String.length (r' +:+ rest)); [reflexivity|].
      rewrite pieces_S, (piece_ended _ Hrest). reflexivity. }
    rewrite Hstop, str_app_nil_r. reflexivity. }
  rewrite Hpieces, (writes_value _ _ Hw).
  assert (Hr1 : (1 <= String.length r)%nat) by (rewrite Hr; simpl; lia).
  f_equal. apply scan_fuel; lia.
Qed.

Lemma tokens_unwords (ws rs : list string) :
  Forall2 writes ws rs ->
  scan (String.length (unwords rs)) (unwords rs) = ws.
Proof.
  induction 1 as [|w r ws rs Hw Hrest IH]; [reflexivity|].
  destruct rs as [|r2 rs].
  - inversion Hrest. subst.
    change (unwords [r]) with r.
    rewrite <- (str_app_nil_r r) at 2.
    rewrite <- (str_app_nil_r r) at 1.
    rewrite (scan_written w r "" _ Hw (or_introl eq_refl)) by lia.
    reflexivity.
  - change (unwords (r :: r2 :: rs)) with (r +:+ String " " (unwords (r2 :: rs))).
    rewrite (scan_written w r _ _ Hw (or_intror (ex_intro _ _ eq_refl))) by lia.
    f_equal. exact IH.
Qed.

(** X18: no token holds a double quote.  Whatever the text, each of
    its tokens is free of double quotes: a command cannot be given an
    argument with that byte. *)
Theorem tokens_hold_no_quote (text : string) :
  Forall (fun k => GoString.ContainsQuote k = false) (tokenize text).
Proof.
  unfold tokenize. apply Forall_map, Forall_forall. intros k _.
  rewrite ReplaceQuote_guarded. apply ReplaceQuote_clean.
Qed.

(** X19: from arguments to a text and back.  Write each argument of a
    list as it is, when it is a non-empty run of bytes that are
    neither white space nor a double quote, or between two double
    quotes, when it holds no double quote (then it may be empty and
    may hold white space), and put one space between two of them: the
    tokens of that text are the arguments.  So every list of
    arguments without a double quote is the list of the tokens of a
    text. *)
Theorem tokenize_unwords (ws rs : list string) :
  Forall2 writes ws rs -> tokenize (unwords rs) = ws.
Proof.
  intros Hw. unfold tokenize, Regexp.FindAllString.
  rewrite tokenize_loop. apply tokens_unwords, Hw.
Qed.

Lemma drop_app_length (p x : string) : GoString.drop (String.length p) (p +:+ x) = x.
Proof. induction p as [|c p IH]; [destruct x; reflexivity | exact IH]. Qed.

(** X20: from an invocation to a text and back.  A text made of a
    non-empty prefix and a name, both of plain bytes, then the
    arguments, written as above, with one space before each: when the
    name follows the prefix at once (no space after the prefix), the
    extraction gives the name and the arguments; when a space is set
    to follow the prefix, the first token is passed over whatever it
    holds, the name is the second token, or empty when there is
    none. *)
Theorem invocation_of_text
    (cfg : Config) (usedPrefix name : string) (ws rs : list string) :
  all_plain usedPrefix = true -> usedPrefix <> "" ->
  all_plain name = true ->
  Forall2 writes ws rs ->
  extractInvoke cfg usedPrefix (tokenize (unwords ((usedPrefix +:+ name) :: rs)))
  = Ok (if SpaceAfterPrefix cfg
        then match ws with
             | second :: ws' => (second, ws')
             | [] => ("", [])
             end
        else (name, ws)).
Proof.
  intros Hp Hne Hname Hw.
  assert (Hfirst : writes (usedPrefix +:+ name) (usedPrefix +:+ name)).
  { left. split; [|split; [|reflexivity]].
    - clear Hne. induction usedPrefix as [|c p IH]; [exact Hname|].
      simpl in Hp. apply andb_true_iff in Hp as [Hc Hp].
      rewrite str_app_cons. simpl. rewrite Hc. exact (IH Hp).
    - destruct usedPrefix; [contradiction | discriminate]. }
  unfold tokenize, Regexp.FindAllString. rewrite tokenize_loop.
  rewrite (tokens_unwords _ _ (List.Forall2_cons _ _ Hfirst Hw)).
  rewrite extractInvoke_first_token by (rewrite str_app_length; lia).
  rewrite drop_app_length. reflexivity.
Qed.

End TokenizerMore.

(** ** The further properties on the examples *)

Lemma runCommand_paths_witness :
  let h := Examples.h_with [Examples.mw_pass; Examples.mw_after] in
  let run :=
    Handler.runCommand 1 2 "handler" h Examples.ping (Examples.context_of "!ping") [] in
  fst run = Ok tt /\
  Handler.handled (snd run) = [Examples.mw_pass; Examples.mw_after] /\
  Handler.executions (snd run) = [Examples.ping].
Proof.
  intros h run.
  destruct (runCommand_paths 1 2 "handler" h Examples.ping
              (Examples.context_of "!ping") [])
    as (_ & _ & Hfull).
  - repeat constructor.
  - unfold run. rewrite Hfull; [|reflexivity | repeat constructor].
    split; [reflexivity|]. split; vm_compute; reflexivity.
Defined.

Lemma messageHandler_returns_witness :
  fst (Examples.dispatch Examples.h_ping "!ping") = Ok tt.
Proof.
  apply (messageHandler_returns Examples.ToLowerASCII 1 2
           "command not found" "command is not executable in DM channels" "handler"
           Examples.h_ping Examples.session0 (Examples.message_of "!ping") false []).
  - reflexivity.
  - intros guildID guildPrefix Hget. inversion Hget. reflexivity.
Defined.

Lemma empty_global_prefix_disables_witness :
  Examples.dispatch Examples.h_mute "?ping" = (Ok tt, []).
Proof.
  apply (empty_global_prefix_disables Examples.ToLowerASCII 1 2
           "command not found" "command is not executable in DM channels" "handler"
           Examples.h_mute Examples.session0 (Examples.message_of "?ping") false []).
  reflexivity.
Defined.

Lemma tokenize_unwords_witness :
  Handler.tokenize
    (Handler.unwords
       ["!ban";
        String GoString.dq ("John Doe" +:+ String GoString.dq "");
        String GoString.dq ("" +:+ String GoString.dq "")])
  = ["!ban"; "John Doe"; ""].
Proof.
  apply tokenize_unwords.
  constructor; [left; split; [reflexivity | split; [discriminate | reflexivity]]|].
  constructor; [right; split; reflexivity|].
  constructor; [right; split; reflexivity | constructor].
Defined.

Lemma invocation_of_text_witness :
  Handler.extractInvoke Examples.bang "!"
    (Handler.tokenize
       (Handler.unwords
          ["!" +:+ "ban";
           String GoString.dq ("John Doe" +:+ String GoString.dq "");
           "10"]))
  = Ok ("ban", ["John Doe"; "10"]).
Proof.
  apply (invocation_of_text Examples.bang "!" "ban" ["John Doe"; "10"]).
  - reflexivity.
  - discriminate.
  - reflexivity.
  - constructor; [right; split; reflexivity|].
    constructor; [left; split; [reflexivity | split; [discriminate | reflexivity]]|].
    constructor.
Defined.
